(** * ln-paywall, package [ln]: the lnd client of the paywall

    A shallow embedding of [ln/lnd.go] and of the pieces of the Go standard
    library it calls ([encoding/hex], [encoding/base64], [crypto/sha256]),
    followed by the properties of [GenerateInvoice], [CheckInvoice] and
    [assignDefaultValues], and of the order of checks in the decision
    procedure that uses the client.

    [NewLNDclient] reads files and dials the node; an [LNDclient] below is a
    client as that constructor returns it without error, its [lndClient] being
    a live stub.

    Conventions.
    - A Go [string] is a [string] (a sequence of 8-bit characters), a
      [[]byte] is a [list byte], an [int64] that is only passed around is a [Z].
    - A Go [error] value is an [option error]: [None] is [nil].
    - A Go pointer to a protobuf message is an [option]: the generated getters
      are nil-safe and the embedding keeps that.
    - Remote procedure calls and log lines are effects: they run in a state
      monad over the state of the remote node, and every one of them is
      recorded in a trace. *)

From Stdlib Require Import ZArith List Bool Lia.
From Stdlib.Strings Require Import String Ascii Byte.
Import ListNotations.
Local Open Scope string_scope.
Local Open Scope list_scope.
Local Open Scope Z_scope.

(** ** Bytes and strings *)

Definition byte_of_Z (z : Z) : byte :=
  match Byte.of_N (Z.to_N (z mod 256)) with
  | Some b => b
  | None => x00
  end.

Definition Z_of_byte (b : byte) : Z := Z.of_N (Byte.to_N b).

Definition bytes_of_string (s : string) : list byte := list_byte_of_string s.
Definition string_of_bytes (l : list byte) : string := string_of_list_byte l.

(** ** gRPC status: the error that a generated client stub returns *)

Module codes.
Definition Code := Z.
Definition OK : Code := 0.
Definition Unknown : Code := 2.
Definition NotFound : Code := 5.
Definition Unavailable : Code := 14.
Definition Unauthenticated : Code := 16.
End codes.

Module status.
Record Status : Type := mk { Code : codes.Code; Message : string }.
End status.

(** ** [encoding/hex] *)

Module hex.

Definition hextable : string := "0123456789abcdef".

Definition digit (n : Z) : ascii :=
  match String.get (Z.to_nat n) hextable with
  | Some c => c
  | None => "0"%char
  end.

Fixpoint EncodeToString (src : list byte) : string :=
  match src with
  | [] => EmptyString
  | v :: rest =>
      String (digit (Z.shiftr (Z_of_byte v) 4))
        (String (digit (Z.land (Z_of_byte v) 15)) (EncodeToString rest))
  end.

End hex.

(** ** [encoding/base64], [StdEncoding]: the standard alphabet, padded with
    [=], not strict; line feeds and carriage returns in the input are skipped. *)

Module base64.

Definition encodeStd : string :=
  "ABCDEFGHIJKLMNOPQRSTUVWXYZabcdefghijklmnopqrstuvwxyz0123456789+/".

Definition padChar : ascii := "="%char.

(** [type CorruptInputError int64]: the offset of the illegal input. *)
Definition CorruptInputError : Type := Z.

Definition encodeChar (n : Z) : ascii :=
  match String.get (Z.to_nat n) encodeStd with
  | Some c => c
  | None => "A"%char
  end.

(** [decodeMap]: the 6-bit value of a character of the alphabet; [None]
    stands for the entry [0xff]. *)
Definition decodeMap (c : ascii) : option Z :=
  let n := Z.of_N (N_of_ascii c) in
  if (65 <=? n) && (n <=? 90) then Some (n - 65)
  else if (97 <=? n) && (n <=? 122) then Some (n - 71)
  else if (48 <=? n) && (n <=? 57) then Some (n + 4)
  else if n =? 43 then Some 62
  else if n =? 47 then Some 63
  else None.

Definition isNewline (c : ascii) : bool :=
  let n := N_of_ascii c in (N.eqb n 10 || N.eqb n 13)%bool.

(** Encoding: three bytes to four characters, the last group padded. *)
Fixpoint encode (src : list Z) : string :=
  match src with
  | [] => EmptyString
  | [a] =>
      String (encodeChar (Z.shiftr a 2))
        (String (encodeChar (Z.land (Z.shiftl a 4) 63))
           (String padChar (String padChar EmptyString)))
  | [a; b] =>
      String (encodeChar (Z.shiftr a 2))
        (String (encodeChar (Z.land (Z.lor (Z.shiftl a 4) (Z.shiftr b 4)) 63))
           (String (encodeChar (Z.land (Z.shiftl b 2) 63))
              (String padChar EmptyString)))
  | a :: b :: c :: rest =>
      String (encodeChar (Z.shiftr a 2))
        (String (encodeChar (Z.land (Z.lor (Z.shiftl a 4) (Z.shiftr b 4)) 63))
           (String (encodeChar (Z.land (Z.lor (Z.shiftl b 2) (Z.shiftr c 6)) 63))
              (String (encodeChar (Z.land c 63)) (encode rest))))
  end.

Definition EncodeToString (src : list byte) : string :=
  encode (map Z_of_byte src).

(** Skips the newlines at the head of the input; returns what is left and
    the index reached. *)
Fixpoint skipNewlines (src : list ascii) (si : Z) : list ascii * Z :=
  match src with
  | c :: rest => if isNewline c then skipNewlines rest (si + 1) else (src, si)
  | [] => ([], si)
  end.

(** The bytes of a quantum of [dlen] characters whose 6-bit values are
    [dbuf] (most recent first): [dlen - 1] bytes of the 24-bit value. *)
Definition quantumBytes (dbuf : list Z) (dlen : nat) : list byte :=
  let d := rev dbuf in
  let val := Z.lor (Z.lor (Z.lor (Z.shiftl (nth 0 d 0) 18) (Z.shiftl (nth 1 d 0) 12))
                      (Z.shiftl (nth 2 d 0) 6)) (nth 3 d 0) in
  firstn (dlen - 1)
    [byte_of_Z (Z.shiftr val 16); byte_of_Z (Z.shiftr val 8); byte_of_Z val].

(** The decoding loop.  [si] is the index of the next character, [total]
    the length of the whole input, [dbuf] the values read in the current
    quantum and [out] the bytes decoded so far. *)
Fixpoint decode (src : list ascii) (si total : Z) (dbuf : list Z)
    (out : list byte) : list byte * option CorruptInputError :=
  let j := List.length dbuf in
  match src with
  | [] =>
      match j with
      | O => (out, None)
      | _ => (out, Some (si - Z.of_nat j))
      end
  | c :: rest =>
      match decodeMap c with
      | Some v =>
          match j with
          | 3%nat => decode rest (si + 1) total [] (out ++ quantumBytes (v :: dbuf) 4)
          | _ => decode rest (si + 1) total (v :: dbuf) out
          end
      | None =>
          if isNewline c then decode rest (si + 1) total dbuf out
          else if negb (Ascii.eqb c padChar) then (out, Some si)
          else
            (* padding reached *)
            match j with
            | 0%nat | 1%nat => (out, Some si)
            | 2%nat =>
                let '(rest1, si1) := skipNewlines rest (si + 1) in
                match rest1 with
                | [] => (out, Some total)
                | c2 :: rest2 =>
                    if negb (Ascii.eqb c2 padChar)
                    then (out, Some (si1 - 1))
                    else
                      let '(rest3, si3) := skipNewlines rest2 (si1 + 1) in
                      (out ++ quantumBytes dbuf 2,
                       match rest3 with
                       | [] => None
                       | _ => Some si3
                       end)
                end
            | _ =>
                let '(rest3, si3) := skipNewlines rest (si + 1) in
                (out ++ quantumBytes dbuf j,
                 match rest3 with
                 | [] => None
                 | _ => Some si3
                 end)
            end
      end
  end.

Definition DecodeString (s : string) : list byte * option CorruptInputError :=
  let src := list_ascii_of_string s in
  decode src 0 (Z.of_nat (List.length src)) [] [].

End base64.

Definition corrupt_offset (r : list byte * option base64.CorruptInputError) : Z :=
  match snd r with
  | Some n => n
  | None => -1
  end.

(** ** [crypto/sha256]

    The digest works on 32-bit words ([uint32]): a [Z] in [0, 2^32) with the
    wrap-around of [+] and the cut of [<<] written out. *)

Module sha256.

Definition Size : nat := 32.
Definition chunk : nat := 64.

Definition u32 (x : Z) : Z := x mod 2 ^ 32.
Definition add32 (x y : Z) : Z := u32 (x + y).
Definition not32 (x : Z) : Z := 2 ^ 32 - 1 - x.
(** [x>>n | x<<(32-n)] on [uint32] *)
Definition rotr (n x : Z) : Z := Z.lor (Z.shiftr x n) (u32 (Z.shiftl x (32 - n))).

Record digest : Type :=
  mkDigest { h0 : Z; h1 : Z; h2 : Z; h3 : Z; h4 : Z; h5 : Z; h6 : Z; h7 : Z }.

(** Tables of 32-bit words are written as runs of hexadecimal digits, eight
    digits to a word. *)
Definition hexDigit (c : ascii) : Z :=
  let n := Z.of_N (N_of_ascii c) in
  if n <? 58 then n - 48 else n - 87.

Fixpoint hexWords (s : string) (k : nat) (acc : Z) : list Z :=
  match s with
  | EmptyString => []
  | String c rest =>
      let acc' := acc * 16 + hexDigit c in
      match k with
      | O => acc' :: hexWords rest 7 0
      | S k' => hexWords rest k' acc'
      end
  end.

(** The initial hash value [init0] .. [init7]. *)
Definition init : digest :=
  match hexWords "6a09e667bb67ae853c6ef372a54ff53a510e527f9b05688c1f83d9ab5be0cd19" 7 0 with
  | [a; b; c; d; e; f; g; h] => mkDigest a b c d e f g h
  | _ => mkDigest 0 0 0 0 0 0 0 0
  end.

(** The round constants [_K]. *)
Definition _K : list Z :=
  hexWords
    ("428a2f9871374491b5c0fbcfe9b5dba53956c25b59f111f1923f82a4ab1c5ed5"
     ++ "d807aa9812835b01243185be550c7dc372be5d7480deb1fe9bdc06a7c19bf174"
     ++ "e49b69c1efbe47860fc19dc6240ca1cc2de92c6f4a7484aa5cb0a9dc76f988da"
     ++ "983e5152a831c66db00327c8bf597fc7c6e00bf3d5a7914706ca635114292967"
     ++ "27b70a852e1b21384d2c6dfc53380d13650a7354766a0abb81c2c92e92722c85"
     ++ "a2bfe8a1a81a664bc24b8b70c76c51a3d192e819d6990624f40e3585106aa070"
     ++ "19a4c1161e376c082748774c34b0bcb5391c0cb34ed8aa4a5b9cca4f682e6ff3"
     ++ "748f82ee78a5636f84c878148cc7020890befffaa4506cebbef9a3f7c67178f2")%string
    7 0.

(** The first sixteen words of the schedule: the block read big-endian. *)
Fixpoint words (p : list Z) : list Z :=
  match p with
  | a :: b :: c :: d :: rest =>
      Z.lor (Z.lor (Z.lor (Z.shiftl a 24) (Z.shiftl b 16)) (Z.shiftl c 8)) d
        :: words rest
  | _ => []
  end.

(** The words [w[16..63]]; [w] is kept most recent first, so that [w[i-k]]
    is its element [k-1]. *)
Fixpoint extend (n : nat) (w : list Z) : list Z :=
  match n with
  | O => w
  | S n' =>
      let v1 := nth 1 w 0 in
      let t1 := Z.lxor (Z.lxor (rotr 17 v1) (rotr 19 v1)) (Z.shiftr v1 10) in
      let v2 := nth 14 w 0 in
      let t2 := Z.lxor (Z.lxor (rotr 7 v2) (rotr 18 v2)) (Z.shiftr v2 3) in
      extend n' (add32 (add32 (add32 t1 (nth 6 w 0)) t2) (nth 15 w 0) :: w)
  end.

Definition schedule (p : list Z) : list Z :=
  rev (extend 48 (rev (words (firstn chunk p)))).

Definition round (s : digest) (kw : Z * Z) : digest :=
  let '(mkDigest a b c d e f g h) := s in
  let t1 :=
    add32 (add32 (add32 (add32 h
      (Z.lxor (Z.lxor (rotr 6 e) (rotr 11 e)) (rotr 25 e)))
      (Z.lxor (Z.land e f) (Z.land (not32 e) g))) (fst kw)) (snd kw) in
  let t2 :=
    add32 (Z.lxor (Z.lxor (rotr 2 a) (rotr 13 a)) (rotr 22 a))
          (Z.lxor (Z.lxor (Z.land a b) (Z.land a c)) (Z.land b c)) in
  mkDigest (add32 t1 t2) a b c (add32 d t1) e f g.

(** One 64-byte block. *)
Definition block1 (dig : digest) (p : list Z) : digest :=
  let s := fold_left round (combine _K (schedule p)) dig in
  mkDigest (add32 (h0 dig) (h0 s)) (add32 (h1 dig) (h1 s))
           (add32 (h2 dig) (h2 s)) (add32 (h3 dig) (h3 s))
           (add32 (h4 dig) (h4 s)) (add32 (h5 dig) (h5 s))
           (add32 (h6 dig) (h6 s)) (add32 (h7 dig) (h7 s)).

(** [blockGeneric]: the loop [for len(p) >= chunk], run on the [n] whole
    blocks of [p]. *)
Fixpoint block (n : nat) (dig : digest) (p : list Z) : digest :=
  match n with
  | O => dig
  | S n' => block n' (block1 dig p) (skipn chunk p)
  end.

(** [checkSum]'s padding: [0x80], zeros up to 56 modulo 64, then the length
    in bits as a big-endian [uint64]. *)
Definition padding (len : Z) : list Z :=
  let r := len mod 64 in
  let n := if r <? 56 then 56 - r else 64 + 56 - r in
  let bits := (len * 8) mod 2 ^ 64 in
  (0x80 :: repeat 0 (Z.to_nat (n - 1)))
    ++ map (fun k => Z.shiftr bits (8 * k) mod 256) [7; 6; 5; 4; 3; 2; 1; 0].

Definition bigEndian32 (x : Z) : list byte :=
  [byte_of_Z (Z.shiftr x 24); byte_of_Z (Z.shiftr x 16);
   byte_of_Z (Z.shiftr x 8); byte_of_Z x].

Definition Sum256 (data : list byte) : list byte :=
  let p := map Z_of_byte data in
  let padded := p ++ padding (Z.of_nat (List.length p)) in
  let d := block (Nat.div (List.length padded) chunk) init padded in
  bigEndian32 (h0 d) ++ bigEndian32 (h1 d) ++ bigEndian32 (h2 d)
    ++ bigEndian32 (h3 d) ++ bigEndian32 (h4 d) ++ bigEndian32 (h5 d)
    ++ bigEndian32 (h6 d) ++ bigEndian32 (h7 d).

End sha256.

(** ** Go errors

    The dynamic types of the [error] values that flow through package [ln]:
    [base64.CorruptInputError] from the decoder, and the gRPC status (code and
    message) that the generated lnd stub returns. *)

Inductive error : Type :=
| CorruptInputError (e : base64.CorruptInputError)
| StatusError (s : status.Status).

(** ** [context] and [grpc]: what the client holds of them *)

Module context.
(** A context is read here only for its outgoing metadata (the macaroon). *)
Record Context : Type := mk { outgoing : list (string * string) }.
Definition Background : Context := mk [].
End context.

Module grpc.
Record ClientConn : Type := mk { target : string }.
End grpc.

(** ** [lnrpc]: the messages and the client interface of lnd

    The package is not part of this repository; the records keep the fields
    that [ln] writes or reads and the ones that identify a charge. *)

Module lnrpc.

Module Invoice.
Record t : Type :=
  mk { Memo : string; RPreimage : list byte; RHash : list byte;
       Value : Z; Settled : bool; PaymentRequest : string }.
End Invoice.

Module AddInvoiceResponse.
Record t : Type := mk { RHash : list byte; PaymentRequest : string }.
End AddInvoiceResponse.

Module PaymentHash.
Record t : Type := mk { RHashStr : string; RHash : list byte }.
End PaymentHash.

(** The generated getters accept a nil receiver. *)
Definition GetSettled (m : option Invoice.t) : bool :=
  match m with
  | Some i => Invoice.Settled i
  | None => false
  end.

Definition GetPaymentRequest (m : option AddInvoiceResponse.t) : string :=
  match m with
  | Some r => AddInvoiceResponse.PaymentRequest r
  | None => EmptyString
  end.

(** [LightningClient], the two methods that [ln] calls.  [N] is the state
    of the node behind the connection; a call returns the pair
    (response, error) of the Go method and the node's next state. *)
Record LightningClient (N : Type) : Type :=
  { AddInvoice :
      context.Context -> Invoice.t -> N ->
      (option AddInvoiceResponse.t * option status.Status) * N;
    LookupInvoice :
      context.Context -> PaymentHash.t -> N ->
      (option Invoice.t * option status.Status) * N }.

Arguments AddInvoice {N} _ _ _ _.
Arguments LookupInvoice {N} _ _ _ _.

End lnrpc.

(** ** Effects: the node and the trace *)

Inductive Event : Type :=
| EvLog (line : string)
| EvAddInvoice (ctx : context.Context) (invoice : lnrpc.Invoice.t)
| EvLookupInvoice (ctx : context.Context) (paymentHash : lnrpc.PaymentHash.t).

Record World (N : Type) : Type := mkWorld { node : N; trace : list Event }.
Arguments mkWorld {N} _ _.
Arguments node {N} _.
Arguments trace {N} _.

Definition M (N A : Type) : Type := World N -> A * World N.

Definition ret {N A : Type} (a : A) : M N A := fun w => (a, w).

Definition bind {N A B : Type} (m : M N A) (k : A -> M N B) : M N B :=
  fun w => let '(a, w') := m w in k a w'.

Notation "x <- m ;; k" := (bind m (fun x => k))
  (at level 61, m at next level, right associativity).
Notation "' pat <- m ;; k" := (bind m (fun x => match x with pat => k end))
  (at level 61, pat pattern, m at next level, right associativity).

Definition emit {N : Type} (e : Event) : M N unit :=
  fun w => (tt, mkWorld (node w) (trace w ++ [e])).

Definition asError (s : option status.Status) : option error :=
  option_map StatusError s.

(** The line feed that ends a log line. *)
Definition newlineString : string := String "010"%char EmptyString.

Module log.
(** The standard logger; a line is recorded without its time prefix. *)
Definition Println {N : Type} (s : string) : M N unit :=
  emit (EvLog (s ++ newlineString)%string).
(** [Printf] with the format ["Checking invoice for hash %v\n"]: the only
    format this package uses. *)
Definition Printf_hash {N : Type} (v : string) : M N unit :=
  emit (EvLog ("Checking invoice for hash " ++ v ++ newlineString)%string).
End log.

(** A call through the stub: recorded in the trace, then answered by the node. *)
Definition callAddInvoice {N : Type} (cl : lnrpc.LightningClient N)
    (ctx : context.Context) (invoice : lnrpc.Invoice.t)
    : M N (option lnrpc.AddInvoiceResponse.t * option error) :=
  fun w =>
    let '((res, err), n') := lnrpc.AddInvoice cl ctx invoice (node w) in
    ((res, asError err), mkWorld n' (trace w ++ [EvAddInvoice ctx invoice])).

Definition callLookupInvoice {N : Type} (cl : lnrpc.LightningClient N)
    (ctx : context.Context) (paymentHash : lnrpc.PaymentHash.t)
    : M N (option lnrpc.Invoice.t * option error) :=
  fun w =>
    let '((res, err), n') := lnrpc.LookupInvoice cl ctx paymentHash (node w) in
    ((res, asError err), mkWorld n' (trace w ++ [EvLookupInvoice ctx paymentHash])).

(** ** Package [ln] *)

Record LNDclient (N : Type) : Type :=
  { lndClient : lnrpc.LightningClient N;
    ctx : context.Context;
    conn : option grpc.ClientConn }.
Arguments lndClient {N} _.
Arguments ctx {N} _.
Arguments conn {N} _.

Definition GenerateInvoice {N : Type} (c : LNDclient N) (amount : Z) (memo : string)
    : M N (string * option error) :=
  let invoice :=
    lnrpc.Invoice.mk memo [] [] amount false EmptyString in
  _ <- log.Println "Creating invoice for a new API request" ;;
  '(res, err) <- callAddInvoice (lndClient c) (ctx c) invoice ;;
  match err with
  | Some e => ret (EmptyString, Some e)
  | None => ret (lnrpc.GetPaymentRequest res, None)
  end.

Definition CheckInvoice {N : Type} (c : LNDclient N) (preimage : string)
    : M N (bool * option error) :=
  let '(decodedPreimage, err) := base64.DecodeString preimage in
  match err with
  | Some e => ret (false, Some (CorruptInputError e))
  | None =>
      let hash := sha256.Sum256 decodedPreimage in
      let hashSlice := hash in
      let paymentHash :=
        lnrpc.PaymentHash.mk (hex.EncodeToString hashSlice) hashSlice in
      let encodedHash := base64.EncodeToString hashSlice in
      _ <- log.Printf_hash encodedHash ;;
      '(invoice, err) <- callLookupInvoice (lndClient c) (ctx c) paymentHash ;;
      match err with
      | Some e => ret (false, Some e)
      | None =>
          if negb (lnrpc.GetSettled invoice)
          then ret (false, None)
          else ret (true, None)
      end
  end.

Record LNDoptions : Type :=
  mkLNDoptions { Address : string; CertFile : string; MacaroonFile : string }.

Definition DefaultLNDoptions : LNDoptions :=
  mkLNDoptions "localhost:10009" "tls.cert" "invoice.macaroon".

Definition assignDefaultValues (lndOptions : LNDoptions) : LNDoptions :=
  let lndOptions :=
    if String.eqb (Address lndOptions) ""
    then mkLNDoptions (Address DefaultLNDoptions) (CertFile lndOptions)
           (MacaroonFile lndOptions)
    else lndOptions in
  let lndOptions :=
    if String.eqb (CertFile lndOptions) ""
    then mkLNDoptions (Address lndOptions) (CertFile DefaultLNDoptions)
           (MacaroonFile lndOptions)
    else lndOptions in
  let lndOptions :=
    if String.eqb (MacaroonFile lndOptions) ""
    then mkLNDoptions (Address lndOptions) (CertFile lndOptions)
           (MacaroonFile DefaultLNDoptions)
    else lndOptions in
  lndOptions.

(** ** The constructor [NewLNDclient]

    The constructor loads the TLS certificate, dials the node and reads the
    macaroon.  Those three steps belong to the host (file system and network);
    [Host] is their interface, and [SetupEvent] records which of them were
    attempted, in order. *)

Module fmt.

Definition upperhex : string := "0123456789ABCDEF".

Definition digitX (n : Z) : ascii :=
  match String.get (Z.to_nat n) upperhex with
  | Some c => c
  | None => "0"%char
  end.

(** [Sprintf("%X", s)] for a string operand: two upper-case hexadecimal
    digits for every byte of [s]. *)
Fixpoint Sprintf_X (s : string) : string :=
  match s with
  | EmptyString => EmptyString
  | String c rest =>
      let n := Z.of_N (N_of_ascii c) in
      String (digitX (Z.shiftr n 4)) (String (digitX (Z.land n 15)) (Sprintf_X rest))
  end.

End fmt.

Module metadata.

Definition AppendToOutgoingContext (ctx : context.Context) (k v : string)
    : context.Context :=
  context.mk (context.outgoing ctx ++ [(k, v)]).

End metadata.

Inductive SetupEvent : Type :=
| EvLoadCert (certFile serverNameOverride : string)
| EvDial (target : string)
| EvReadFile (filename : string).

(** [C] is the type of transport credentials, [E] the type of the errors the
    host reports.  [NewClientTLSFromFile] and [Dial] return the pair
    (value, error) of the Go functions. *)
Record Host (N C E : Type) : Type :=
  { NewClientTLSFromFile : string -> string -> option C * option E;
    Dial : string -> option C -> option grpc.ClientConn * option E;
    NewLightningClient : option grpc.ClientConn -> lnrpc.LightningClient N;
    ReadFile : string -> list byte * option E }.
Arguments NewClientTLSFromFile {N C E} _ _ _.
Arguments Dial {N C E} _ _ _.
Arguments NewLightningClient {N C E} _ _.
Arguments ReadFile {N C E} _ _.

(** The result [None] is the zero value [LNDclient{}] that the constructor
    returns beside an error. *)
Definition NewLNDclient {N C E : Type} (h : Host N C E) (lndOptions : LNDoptions)
    : (option (LNDclient N) * option E) * list SetupEvent :=
  let result : option (LNDclient N) := None in
  let lndOptions := assignDefaultValues lndOptions in
  let '(creds, err) := NewClientTLSFromFile h (CertFile lndOptions) "" in
  let t1 := [EvLoadCert (CertFile lndOptions) ""] in
  match err with
  | Some e => ((result, Some e), t1)
  | None =>
      let '(conn, err) := Dial h (Address lndOptions) creds in
      let t2 := t1 ++ [EvDial (Address lndOptions)] in
      match err with
      | Some e => ((result, Some e), t2)
      | None =>
          let c := NewLightningClient h conn in
          let '(macaroon, err) := ReadFile h (MacaroonFile lndOptions) in
          let t3 := t2 ++ [EvReadFile (MacaroonFile lndOptions)] in
          match err with
          | Some e => ((result, Some e), t3)
          | None =>
              let macaroonHex := fmt.Sprintf_X (string_of_bytes macaroon) in
              let ctx := context.Background in
              let ctx := metadata.AppendToOutgoingContext ctx "macaroon" macaroonHex in
              let result := Some {| conn := conn; ctx := ctx; lndClient := c |} in
              ((result, None), t3)
          end
      end
  end.

(** ** A caller of the client

    Go passes the receiver [c LNDclient] and the arguments by value: a method
    works on its own copies and the caller keeps its variables.  [Frame] holds
    the caller's variables, [Machine] adds the world; [invokeGenerateInvoice]
    and [invokeCheckInvoice] are the two method calls as the caller sees
    them. *)

Record Frame (N : Type) : Type :=
  mkFrame { f_client : LNDclient N; f_amount : Z; f_memo : string;
            f_preimage : string }.
Arguments mkFrame {N} _ _ _ _.
Arguments f_client {N} _.
Arguments f_amount {N} _.
Arguments f_memo {N} _.
Arguments f_preimage {N} _.

Record Machine (N : Type) : Type :=
  mkMachine { frame : Frame N; world : World N }.
Arguments mkMachine {N} _ _.
Arguments frame {N} _.
Arguments world {N} _.

Definition invokeGenerateInvoice {N : Type} (m : Machine N)
    : (string * option error) * Machine N :=
  let f := frame m in
  let '(r, w') := GenerateInvoice (f_client f) (f_amount f) (f_memo f) (world m) in
  (r, mkMachine f w').

Definition invokeCheckInvoice {N : Type} (m : Machine N)
    : (bool * option error) * Machine N :=
  let f := frame m in
  let '(r, w') := CheckInvoice (f_client f) (f_preimage f) (world m) in
  (r, mkMachine f w').

(** Reading a trace. *)

Definition isRemoteCall (e : Event) : bool :=
  match e with
  | EvLog _ => false
  | EvAddInvoice _ _ | EvLookupInvoice _ _ => true
  end.

Definition remoteCalls (t : list Event) : list Event := filter isRemoteCall t.

Definition addedInvoices (t : list Event) : list lnrpc.Invoice.t :=
  flat_map (fun e => match e with EvAddInvoice _ i => [i] | _ => [] end) t.

Definition lookedUpHashes (t : list Event) : list (list byte) :=
  flat_map (fun e => match e with
                     | EvLookupInvoice _ ph => [lnrpc.PaymentHash.RHash ph]
                     | _ => []
                     end) t.

(** The messages of the two calls, as the properties below name them. *)

(** The invoice that [GenerateInvoice] sends: memo and value set, every other
    field at its zero value. *)
Definition requestedInvoice (amount : Z) (memo : string) : lnrpc.Invoice.t :=
  lnrpc.Invoice.mk memo [] [] amount false EmptyString.

(** The message that [CheckInvoice] looks up for a decoded preimage. *)
Definition paymentHashOf (decoded : list byte) : lnrpc.PaymentHash.t :=
  lnrpc.PaymentHash.mk (hex.EncodeToString (sha256.Sum256 decoded))
    (sha256.Sum256 decoded).

Definition checkLogLine (decoded : list byte) : string :=
  ("Checking invoice for hash "
     ++ base64.EncodeToString (sha256.Sum256 decoded) ++ newlineString)%string.

(** ** A test double of the node

    An in-memory node on which the client can be run: it stores the invoices
    it was asked to add, derives the preimage of the n-th invoice from n, and
    answers with a gRPC status when it is unreachable or finds nothing. *)

Module mock.

Record Node : Type := mk { reachable : bool; invoices : list lnrpc.Invoice.t }.

Definition preimageOf (n : nat) : list byte :=
  repeat (byte_of_Z (Z.of_nat n)) 32.

Fixpoint eqb_bytes (a b : list byte) : bool :=
  match a, b with
  | [], [] => true
  | x :: a', y :: b' => Byte.eqb x y && eqb_bytes a' b'
  | _, _ => false
  end.

Definition unavailable : status.Status :=
  status.mk codes.Unavailable "transport is closing".

Definition notFound : status.Status :=
  status.mk codes.Unknown "unable to locate invoice".

Definition AddInvoice (_ : context.Context) (i : lnrpc.Invoice.t) (n : Node)
    : (option lnrpc.AddInvoiceResponse.t * option status.Status) * Node :=
  if reachable n then
    let pre := preimageOf (List.length (invoices n)) in
    let h := sha256.Sum256 pre in
    let pr := ("lnbc" ++ hex.EncodeToString h)%string in
    ((Some (lnrpc.AddInvoiceResponse.mk h pr), None),
     mk true (invoices n ++
                [lnrpc.Invoice.mk (lnrpc.Invoice.Memo i) pre h
                   (lnrpc.Invoice.Value i) false pr]))
  else ((None, Some unavailable), n).

Definition LookupInvoice (_ : context.Context) (ph : lnrpc.PaymentHash.t)
    (n : Node) : (option lnrpc.Invoice.t * option status.Status) * Node :=
  if reachable n then
    match find (fun i => eqb_bytes (lnrpc.Invoice.RHash i)
                           (lnrpc.PaymentHash.RHash ph)) (invoices n) with
    | Some i => ((Some i, None), n)
    | None => ((None, Some notFound), n)
    end
  else ((None, Some unavailable), n).

(** The payer settles the invoice with hash [h]. *)
Definition settle (h : list byte) (n : Node) : Node :=
  mk (reachable n)
     (map (fun i =>
             if eqb_bytes (lnrpc.Invoice.RHash i) h
             then lnrpc.Invoice.mk (lnrpc.Invoice.Memo i)
                    (lnrpc.Invoice.RPreimage i) (lnrpc.Invoice.RHash i)
                    (lnrpc.Invoice.Value i) true
                    (lnrpc.Invoice.PaymentRequest i)
             else i) (invoices n)).

Definition stub : lnrpc.LightningClient Node :=
  {| lnrpc.AddInvoice := AddInvoice; lnrpc.LookupInvoice := LookupInvoice |}.

Definition client : LNDclient Node :=
  {| lndClient := stub;
     ctx := context.mk [("macaroon", "0201036C6E64")];
     conn := Some (grpc.mk "localhost:10009") |}.

Definition fresh : World Node := mkWorld (mk true []) [].
Definition down : World Node := mkWorld (mk false []) [].

(** The world after one charge of 100 for ["api-call"] was issued. *)
Definition charged : World Node :=
  snd (GenerateInvoice client 100 "api-call" fresh).

(** The proof of payment of the first invoice: its preimage in base64. *)
Definition proof0 : string := base64.EncodeToString (preimageOf 0).

End mock.

(** ** The authorization decision procedure

    The middleware that decides on a request is not among the sources of
    package [ln]; the changelog records (v0.2.0) that it asks the storage
    whether a preimage was used before it asks lnd for the invoice. *)

Module wall.

Inductive IssueError : Type := IssueUnavailable | InvalidAmount.

Inductive SettleError : Type :=
  ProofMalformed | ChargeNotFound | VerificationUnavailable.

Inductive StorageError : Type := StorageUnavailable.

Inductive Reason : Type := MalformedProof | UnknownCharge | AlreadyUsed | NotSettled.

Inductive Outcome : Type :=
| ChallengeRequired (paymentRequest : string)
| Rejected (reason : Reason)
| ServiceError
| Authorized.

(** The replay key: the Payment Hash. *)
Definition Key : Type := list byte.

Record Verification (V : Type) : Type :=
  { IssueCharge : Z -> string -> V -> (string + IssueError) * V;
    IsSettled : string -> V -> (bool + SettleError) * V }.
Arguments IssueCharge {V} _ _ _ _.
Arguments IsSettled {V} _ _ _.

Record Storage (S : Type) : Type :=
  { WasUsed : Key -> S -> (bool + StorageError) * S;
    MarkUsed : Key -> S -> option StorageError * S }.
Arguments WasUsed {S} _ _ _.
Arguments MarkUsed {S} _ _ _.

Record ChargeConfiguration : Type := mkConfig { Amount : Z; Memo : string }.

Inductive Call : Type :=
| CallIssueCharge (amount : Z) (memo : string)
| CallIsSettled (proof : string)
| CallWasUsed (key : Key)
| CallMarkUsed (key : Key).

Record System (V S : Type) : Type :=
  mkSystem { verification : V; storage : S; calls : list Call }.
Arguments mkSystem {V S} _ _ _.
Arguments verification {V S} _.
Arguments storage {V S} _.
Arguments calls {V S} _.

Definition isVerificationCall (c : Call) : bool :=
  match c with
  | CallIssueCharge _ _ | CallIsSettled _ => true
  | CallWasUsed _ | CallMarkUsed _ => false
  end.

(** Modelled from the spec: the authorization decision procedure (the
    middleware of package [wall]), which is not among the sources.  The five
    steps of section 4.3: extract the proof; decode it and derive the key;
    fast replay check; settlement check; commit and authorize.  Every call to
    a capability is recorded in [calls]. *)
Definition decide {V S : Type} (vc : Verification V) (sc : Storage S)
    (cfg : ChargeConfiguration) (proof : option string) (sys : System V S)
    : Outcome * System V S :=
  match proof with
  | None =>
      let '(r, v1) := IssueCharge vc (Amount cfg) (Memo cfg) (verification sys) in
      let sys1 := mkSystem v1 (storage sys)
                    (calls sys ++ [CallIssueCharge (Amount cfg) (Memo cfg)]) in
      match r with
      | inl paymentRequest => (ChallengeRequired paymentRequest, sys1)
      | inr _ => (ServiceError, sys1)
      end
  | Some p =>
      match base64.DecodeString p with
      | (_, Some _) => (Rejected MalformedProof, sys)
      | (decoded, None) =>
          let key := sha256.Sum256 decoded in
          let '(used, s1) := WasUsed sc key (storage sys) in
          let sys1 := mkSystem (verification sys) s1 (calls sys ++ [CallWasUsed key]) in
          match used with
          | inr _ => (ServiceError, sys1)
          | inl true => (Rejected AlreadyUsed, sys1)
          | inl false =>
              let '(settled, v2) := IsSettled vc p (verification sys1) in
              let sys2 := mkSystem v2 (storage sys1) (calls sys1 ++ [CallIsSettled p]) in
              match settled with
              | inr ProofMalformed => (Rejected MalformedProof, sys2)
              | inr ChargeNotFound => (Rejected UnknownCharge, sys2)
              | inr VerificationUnavailable => (ServiceError, sys2)
              | inl false => (Rejected NotSettled, sys2)
              | inl true =>
                  let '(failed, s3) := MarkUsed sc key (storage sys2) in
                  let sys3 := mkSystem (verification sys2) s3
                                (calls sys2 ++ [CallMarkUsed key]) in
                  match failed with
                  | Some _ => (ServiceError, sys3)
                  | None => (Authorized, sys3)
                  end
              end
          end
      end
  end.

(** Test doubles: a storage that keeps the used keys in a list, and a
    verification capability that counts how often it was contacted. *)
Definition listStorage : Storage (list Key) :=
  {| WasUsed := fun k s => (inl (existsb (mock.eqb_bytes k) s), s);
     MarkUsed := fun k s => (None, k :: s) |}.

Definition countingVerification : Verification nat :=
  {| IssueCharge := fun _ _ n => (inl "lnbc1", S n);
     IsSettled := fun _ n => (inl true, S n) |}.

End wall.

(** ** Reading hexadecimal text, setup traces, and a test double of the host *)

Definition isLowerHexDigit (c : ascii) : bool :=
  let n := Z.of_N (N_of_ascii c) in
  ((48 <=? n) && (n <=? 57)) || ((97 <=? n) && (n <=? 102)).

Definition isUpperHexDigit (c : ascii) : bool :=
  let n := Z.of_N (N_of_ascii c) in
  ((48 <=? n) && (n <=? 57)) || ((65 <=? n) && (n <=? 70)).

(** The value of a hexadecimal digit of either case. *)
Definition fromHexChar (c : ascii) : Z :=
  let n := Z.of_N (N_of_ascii c) in
  if n <? 58 then n - 48 else if n <? 71 then n - 55 else n - 87.

(** The file or the address that a setup step names. *)
Definition setupName (e : SetupEvent) : string :=
  match e with
  | EvLoadCert certFile _ => certFile
  | EvDial target => target
  | EvReadFile filename => filename
  end.

(** The contexts of the remote calls in a trace. *)
Definition callContexts (t : list Event) : list context.Context :=
  flat_map (fun e => match e with
                     | EvLog _ => []
                     | EvAddInvoice ctx _ => [ctx]
                     | EvLookupInvoice ctx _ => [ctx]
                     end) t.

Module mockhost.

Fixpoint lookupFile (files : list (string * list byte)) (name : string)
    : option (list byte) :=
  match files with
  | [] => None
  | (n, content) :: rest =>
      if String.eqb n name then Some content else lookupFile rest name
  end.

Definition noSuchFile (name : string) : string :=
  ("open " ++ name ++ ": no such file or directory")%string.

(** A host with the given files, whose network is [up] or not; the
    credentials are the bytes of the certificate file. *)
Definition make (files : list (string * list byte)) (up : bool)
    : Host mock.Node (list byte) string :=
  {| NewClientTLSFromFile := fun certFile _ =>
       match lookupFile files certFile with
       | Some pem => (Some pem, None)
       | None => (None, Some (noSuchFile certFile))
       end;
     Dial := fun target _ =>
       if up then (Some (grpc.mk target), None)
       else (None, Some "context deadline exceeded");
     NewLightningClient := fun _ => mock.stub;
     ReadFile := fun filename =>
       match lookupFile files filename with
       | Some content => (content, None)
       | None => ([], Some (noSuchFile filename))
       end |}.

Definition macaroon : list byte := [x02; x01; x03; x6c; x6e; x64].

Definition files : list (string * list byte) :=
  [("tls.cert", bytes_of_string "-----BEGIN CERTIFICATE-----");
   ("invoice.macaroon", macaroon)].

End mockhost.

(** ** Reading base64 text *)

(** The 24-bit value of a quantum, as [quantumBytes] assembles it. *)
Definition val4 (v0 v1 v2 v3 : Z) : Z :=
  Z.lor (Z.lor (Z.lor (Z.shiftl v0 18) (Z.shiftl v1 12)) (Z.shiftl v2 6)) v3.

(** A text with its line feeds and carriage returns taken out. *)
Definition stripNewlines (l : list ascii) : list ascii :=
  filter (fun c => negb (base64.isNewline c)) l.

Definition withoutNewlines (s : string) : string :=
  string_of_list_ascii (stripNewlines (list_ascii_of_string s)).

(** The characters of the standard alphabet, and the characters that may
    occur in an encoded text at all: the alphabet, the padding character and
    the two newline characters. *)
Definition inAlphabet (c : ascii) : bool :=
  match base64.decodeMap c with
  | Some _ => true
  | None => false
  end.

Definition legalChar (c : ascii) : bool :=
  match base64.decodeMap c with
  | Some _ => true
  | None => base64.isNewline c || Ascii.eqb c base64.padChar
  end.

Definition hasIllegalChar (l : list ascii) : bool :=
  existsb (fun c => negb (legalChar c)) l.

(** Two results of the decoder that agree on the bytes and on whether there
    is an error (the offsets in the errors may differ). *)
Definition sameDecoding (r1 r2 : list byte * option base64.CorruptInputError) : Prop :=
  fst r1 = fst r2 /\ (snd r1 = None <-> snd r2 = None).

(** * Properties *)

(** ** The standard library models agree with Go's own test tables *)

Example base64_corrupt_table :
  map (fun s => corrupt_offset (base64.DecodeString s))
    ["!!!!"; "===="; "x==="; "=AAA"; "A=AA"; "AA=A"; "AA==A"; "AAA=AAAA";
     "AAAAA"; "AAAAAA"; "A="; "A=="; "AA="; "AA=="; "AAA="; "AAAA"; "AAAAAA=";
     "YWJjZA====="]
  = [0; 0; 1; 0; 1; 2; 4; 4; 4; 4; 1; 1; 3; -1; -1; -1; 7; 8].
Proof. vm_compute. reflexivity. Qed.

Example base64_decode_pairs :
  map (fun s => string_of_bytes (fst (base64.DecodeString s)))
    [""; "Zg=="; "Zm8="; "Zm9v"; "Zm9vYg=="; "Zm9vYmE="; "Zm9vYmFy"]
  = [""; "f"; "fo"; "foo"; "foob"; "fooba"; "foobar"].
Proof. vm_compute. reflexivity. Qed.

Example base64_encode_pairs :
  map (fun s => base64.EncodeToString (bytes_of_string s))
    [""; "f"; "fo"; "foo"; "foob"; "fooba"; "foobar"]
  = [""; "Zg=="; "Zm8="; "Zm9v"; "Zm9vYg=="; "Zm9vYmE="; "Zm9vYmFy"].
Proof. vm_compute. reflexivity. Qed.

Example sha256_vectors :
  map (fun s => hex.EncodeToString (sha256.Sum256 (bytes_of_string s)))
    [""; "abc"; "abcdbcdecdefdefgefghfghighijhijkijkljklmklmnlmnomnopnopq"]
  = ["e3b0c44298fc1c149afbf4c8996fb92427ae41e4649b934ca495991b7852b855";
     "ba7816bf8f01cfea414140de5dae2223b00361a396177a9cb410ff61f20015ad";
     "248d6a61d20638b8e5c026930c3e6039a33ce45964ff2167f6ecedd419db06c1"].
Proof. vm_compute. reflexivity. Qed.

(** ** Digest size and trace readers *)

Lemma Sum256_length (data : list byte) :
  List.length (sha256.Sum256 data) = sha256.Size.
Proof.
  unfold sha256.Sum256, sha256.bigEndian32.
  cbv zeta. repeat rewrite length_app. reflexivity.
Qed.

Lemma remoteCalls_app (t u : list Event) :
  remoteCalls (t ++ u) = remoteCalls t ++ remoteCalls u.
Proof. apply filter_app. Qed.

Lemma addedInvoices_app (t u : list Event) :
  addedInvoices (t ++ u) = addedInvoices t ++ addedInvoices u.
Proof. apply flat_map_app. Qed.

Lemma lookedUpHashes_app (t u : list Event) :
  lookedUpHashes (t ++ u) = lookedUpHashes t ++ lookedUpHashes u.
Proof. apply flat_map_app. Qed.

(** ** What one call does *)

Lemma GenerateInvoice_run {N : Type} (c : LNDclient N) (amount : Z)
    (memo : string) (w : World N) :
  GenerateInvoice c amount memo w =
  let r := lnrpc.AddInvoice (lndClient c) (ctx c) (requestedInvoice amount memo) (node w) in
  (match snd (fst r) with
   | Some s => (EmptyString, Some (StatusError s))
   | None => (lnrpc.GetPaymentRequest (fst (fst r)), None)
   end,
   mkWorld (snd r)
     (trace w ++ [EvLog ("Creating invoice for a new API request" ++ newlineString)%string;
                  EvAddInvoice (ctx c) (requestedInvoice amount memo)])).
Proof.
  destruct w as [n t].
  unfold GenerateInvoice, bind, log.Println, emit, callAddInvoice, ret,
    requestedInvoice, newlineString.
  cbn [node trace].
  destruct (lnrpc.AddInvoice (lndClient c) (ctx c) _ n) as [[res [s|]] n'];
    cbn [fst snd asError option_map]; rewrite <- app_assoc; reflexivity.
Qed.

Lemma CheckInvoice_decoded {N : Type} (c : LNDclient N) (preimage : string)
    (decoded : list byte) (w : World N) :
  base64.DecodeString preimage = (decoded, None) ->
  CheckInvoice c preimage w =
  let r := lnrpc.LookupInvoice (lndClient c) (ctx c) (paymentHashOf decoded) (node w) in
  (match snd (fst r) with
   | Some s => (false, Some (StatusError s))
   | None => (lnrpc.GetSettled (fst (fst r)), None)
   end,
   mkWorld (snd r)
     (trace w ++ [EvLog (checkLogLine decoded);
                  EvLookupInvoice (ctx c) (paymentHashOf decoded)])).
Proof.
  intros Hdec. destruct w as [n t].
  unfold CheckInvoice. rewrite Hdec.
  unfold bind, log.Printf_hash, emit, callLookupInvoice, ret, paymentHashOf,
    checkLogLine, newlineString.
  cbn [node trace].
  destruct (lnrpc.LookupInvoice (lndClient c) (ctx c) _ n) as [[inv [s|]] n'];
    cbn [fst snd asError option_map]; rewrite <- app_assoc.
  - reflexivity.
  - destruct (lnrpc.GetSettled inv); reflexivity.
Qed.

Lemma CheckInvoice_undecoded {N : Type} (c : LNDclient N) (preimage : string)
    (decoded : list byte) (e : base64.CorruptInputError) (w : World N) :
  base64.DecodeString preimage = (decoded, Some e) ->
  CheckInvoice c preimage w = ((false, Some (CorruptInputError e)), w).
Proof.
  intros Hdec. unfold CheckInvoice. rewrite Hdec. reflexivity.
Qed.

(** ** [CheckInvoice] *)

(** C1. When the preimage decodes and the node returns an invoice that is not
    settled, [CheckInvoice] returns [false] and a nil error: an unsettled
    invoice is a negative answer, not a failure. *)
Theorem CheckInvoice_unsettled_is_false_nil {N : Type} (c : LNDclient N)
    (preimage : string) (decoded : list byte) (w : World N)
    (invoice : lnrpc.Invoice.t) (n' : N) :
  base64.DecodeString preimage = (decoded, None) ->
  lnrpc.LookupInvoice (lndClient c) (ctx c) (paymentHashOf decoded) (node w)
    = ((Some invoice, None), n') ->
  lnrpc.Invoice.Settled invoice = false ->
  fst (CheckInvoice c preimage w) = (false, None).
Proof.
  intros Hdec Hlook Hset.
  rewrite (CheckInvoice_decoded c preimage decoded w Hdec).
  cbv zeta. rewrite Hlook. cbn [fst snd lnrpc.GetSettled].
  rewrite Hset. reflexivity.
Qed.

Lemma CheckInvoice_unsettled_is_false_nil_witness :
  fst (CheckInvoice mock.client mock.proof0 mock.charged) = (false, None).
Proof.
  eapply (CheckInvoice_unsettled_is_false_nil mock.client mock.proof0
            (mock.preimageOf 0) mock.charged).
  - vm_compute. reflexivity.
  - vm_compute. reflexivity.
  - reflexivity.
Defined.

(** C2. A preimage that is not valid base64 makes [CheckInvoice] return an
    error, and that error is the decoder's own kind ([CorruptInputError]):
    the call ends there, with the world as it was (nothing is hashed, logged
    or looked up with the undecoded preimage), and no call whose
    preimage decodes (charge not found, node unreachable, not settled,
    settled) ever returns an error of that kind. *)
Theorem CheckInvoice_malformed_is_distinct_error {N : Type} (c : LNDclient N)
    (preimage : string) (decoded : list byte) (e : base64.CorruptInputError)
    (w : World N) :
  base64.DecodeString preimage = (decoded, Some e) ->
  snd (fst (CheckInvoice c preimage w)) = Some (CorruptInputError e)
  /\ snd (CheckInvoice c preimage w) = w
  /\ (forall (N' : Type) (c' : LNDclient N') (preimage' : string)
        (w' : World N') (e' : base64.CorruptInputError),
        snd (base64.DecodeString preimage') = None ->
        snd (fst (CheckInvoice c' preimage' w')) <> Some (CorruptInputError e')).
Proof.
  intros Hdec.
  rewrite (CheckInvoice_undecoded c preimage decoded e w Hdec).
  repeat split.
  intros N' c' p' w' e' Hok.
  destruct (base64.DecodeString p') as [d' err'] eqn:Hd'.
  cbn [snd] in Hok. subst err'.
  rewrite (CheckInvoice_decoded c' p' d' w' Hd'). cbv zeta. cbn [fst snd].
  destruct (snd (fst (lnrpc.LookupInvoice _ _ _ _))); cbn [snd]; discriminate.
Qed.

Lemma CheckInvoice_malformed_is_distinct_error_witness :
  snd (fst (CheckInvoice mock.client "not base64!" mock.charged))
  = Some (CorruptInputError 3).
Proof.
  refine (proj1 (CheckInvoice_malformed_is_distinct_error mock.client
                   "not base64!" _ 3 mock.charged _)).
  vm_compute. reflexivity.
Defined.

(** C3. The payment hash is a function of the proof alone: when the preimage
    decodes, the hash sent with the lookup is the SHA-256 digest of the decoded
    bytes, 32 bytes long, also in its hex form, whatever the client and the
    state of the world; so every call with the same proof looks up the same
    hash. *)
Theorem CheckInvoice_payment_hash_is_sha256 {N : Type} (c : LNDclient N)
    (preimage : string) (decoded : list byte) (w : World N) :
  base64.DecodeString preimage = (decoded, None) ->
  List.length (sha256.Sum256 decoded) = 32%nat
  /\ trace (snd (CheckInvoice c preimage w))
     = trace w ++
       [EvLog (checkLogLine decoded);
        EvLookupInvoice (ctx c)
          (lnrpc.PaymentHash.mk (hex.EncodeToString (sha256.Sum256 decoded))
             (sha256.Sum256 decoded))]
  /\ lookedUpHashes (trace (snd (CheckInvoice c preimage w)))
     = lookedUpHashes (trace w) ++ [sha256.Sum256 decoded]
  /\ (forall (N' : Type) (c' : LNDclient N') (w' : World N'),
        lookedUpHashes (trace (snd (CheckInvoice c' preimage w')))
        = lookedUpHashes (trace w') ++ [sha256.Sum256 decoded]).
Proof.
  intros Hdec.
  assert (Hany : forall (N' : Type) (c' : LNDclient N') (w' : World N'),
             lookedUpHashes (trace (snd (CheckInvoice c' preimage w')))
             = lookedUpHashes (trace w') ++ [sha256.Sum256 decoded]).
  { intros N' c' w'.
    rewrite (CheckInvoice_decoded c' preimage decoded w' Hdec). cbv zeta.
    cbn [snd trace]. rewrite lookedUpHashes_app. reflexivity. }
  split; [apply Sum256_length | split; [| split; [apply Hany | exact Hany]]].
  rewrite (CheckInvoice_decoded c preimage decoded w Hdec). reflexivity.
Qed.

Lemma CheckInvoice_payment_hash_is_sha256_witness :
  lookedUpHashes (trace (snd (CheckInvoice mock.client mock.proof0 mock.charged)))
  = lookedUpHashes (trace mock.charged) ++ [sha256.Sum256 (mock.preimageOf 0)].
Proof.
  refine (proj1 (proj2 (proj2 (CheckInvoice_payment_hash_is_sha256 mock.client
                                 mock.proof0 (mock.preimageOf 0) mock.charged _)))).
  vm_compute. reflexivity.
Defined.

(** C10. When the preimage fails to decode, [CheckInvoice] returns at once
    with [false] and the decoder's error: the world is left as it was, no line
    is logged and no call reaches the node. *)
Theorem CheckInvoice_malformed_makes_no_call {N : Type} (c : LNDclient N)
    (preimage : string) (decoded : list byte) (e : base64.CorruptInputError)
    (w : World N) :
  base64.DecodeString preimage = (decoded, Some e) ->
  CheckInvoice c preimage w = ((false, Some (CorruptInputError e)), w)
  /\ remoteCalls (trace (snd (CheckInvoice c preimage w))) = remoteCalls (trace w)
  /\ node (snd (CheckInvoice c preimage w)) = node w.
Proof.
  intros Hdec.
  rewrite (CheckInvoice_undecoded c preimage decoded e w Hdec).
  repeat split.
Qed.

Lemma CheckInvoice_malformed_makes_no_call_witness :
  CheckInvoice mock.client "AA=A" mock.charged
  = ((false, Some (CorruptInputError 2)), mock.charged).
Proof.
  refine (proj1 (CheckInvoice_malformed_makes_no_call mock.client "AA=A" _ 2
                   mock.charged _)).
  vm_compute. reflexivity.
Defined.



(** ** [GenerateInvoice] *)

(** C4, as the claim states it, fails: for the amount 0 the client reports no
    error, and the request has reached the node, which now holds a charge of
    value 0. *)
Lemma GenerateInvoice_zero_amount_is_charged :
  0 <= 0
  /\ snd (fst (GenerateInvoice mock.client 0 "api-call" mock.fresh)) = None
  /\ map lnrpc.Invoice.Value
       (mock.invoices (node (snd (GenerateInvoice mock.client 0 "api-call" mock.fresh))))
     = [0]
  /\ addedInvoices (trace (snd (GenerateInvoice mock.client 0 "api-call" mock.fresh)))
     = [requestedInvoice 0 "api-call"].
Proof. vm_compute. repeat split; discriminate. Qed.

(** C4, amended. [GenerateInvoice] does not inspect the amount: for an amount
    that is zero or negative, as for any other, it sends one [AddInvoice]
    request with that value and memo, and its result is the node's answer: the
    node's error passed on as it is, or the payment request of the response. *)
Theorem GenerateInvoice_forwards_nonpositive_amount {N : Type} (c : LNDclient N)
    (amount : Z) (memo : string) (w : World N) :
  amount <= 0 ->
  let r := lnrpc.AddInvoice (lndClient c) (ctx c) (requestedInvoice amount memo) (node w) in
  fst (GenerateInvoice c amount memo w)
    = match snd (fst r) with
      | Some s => (EmptyString, Some (StatusError s))
      | None => (lnrpc.GetPaymentRequest (fst (fst r)), None)
      end
  /\ node (snd (GenerateInvoice c amount memo w)) = snd r
  /\ addedInvoices (trace (snd (GenerateInvoice c amount memo w)))
     = addedInvoices (trace w) ++ [requestedInvoice amount memo].
Proof.
  intros _ r. rewrite GenerateInvoice_run. cbv zeta. fold r.
  cbn [fst snd node trace]. repeat split.
  rewrite addedInvoices_app. reflexivity.
Qed.

Lemma GenerateInvoice_forwards_nonpositive_amount_witness :
  addedInvoices (trace (snd (GenerateInvoice mock.client (-5) "api-call" mock.down)))
  = addedInvoices (trace mock.down) ++ [requestedInvoice (-5) "api-call"].
Proof.
  refine (proj2 (proj2 (GenerateInvoice_forwards_nonpositive_amount mock.client
                          (-5) "api-call" mock.down _))).
  lia.
Defined.

(** C7. Every call to [GenerateInvoice] sends its own [AddInvoice] request to
    the node and returns the payment request of the response to that very
    request; nothing is kept from one call to the next.  For two calls in a
    row: the second request is answered by the node in the state the first
    left it in, and the trace holds the two requests, in order. *)
Theorem GenerateInvoice_creates_fresh_charge {N : Type} (c : LNDclient N)
    (amount1 amount2 : Z) (memo1 memo2 : string) (w : World N) :
  let r1 := lnrpc.AddInvoice (lndClient c) (ctx c)
              (requestedInvoice amount1 memo1) (node w) in
  let w1 := snd (GenerateInvoice c amount1 memo1 w) in
  let r2 := lnrpc.AddInvoice (lndClient c) (ctx c)
              (requestedInvoice amount2 memo2) (snd r1) in
  let w2 := snd (GenerateInvoice c amount2 memo2 w1) in
  fst (GenerateInvoice c amount1 memo1 w)
    = match snd (fst r1) with
      | Some s => (EmptyString, Some (StatusError s))
      | None => (lnrpc.GetPaymentRequest (fst (fst r1)), None)
      end
  /\ node w1 = snd r1
  /\ addedInvoices (trace w1)
     = addedInvoices (trace w) ++ [requestedInvoice amount1 memo1]
  /\ fst (GenerateInvoice c amount2 memo2 w1)
    = match snd (fst r2) with
      | Some s => (EmptyString, Some (StatusError s))
      | None => (lnrpc.GetPaymentRequest (fst (fst r2)), None)
      end
  /\ node w2 = snd r2
  /\ addedInvoices (trace w2)
     = addedInvoices (trace w)
         ++ [requestedInvoice amount1 memo1; requestedInvoice amount2 memo2].
Proof.
  intros r1 w1 r2 w2. subst w2 w1.
  rewrite !GenerateInvoice_run. cbv zeta. cbn [fst snd node trace].
  fold r1. fold r2. repeat split.
  - rewrite addedInvoices_app. reflexivity.
  - rewrite !addedInvoices_app, <- app_assoc. reflexivity.
Qed.

(** On the test double, two charges for the same amount and memo have two
    different payment requests, and the node holds two invoices. *)
Example GenerateInvoice_twice_on_mock :
  let '(r1, w1) := GenerateInvoice mock.client 100 "api-call" mock.fresh in
  let '(r2, w2) := GenerateInvoice mock.client 100 "api-call" w1 in
  snd r1 = None /\ snd r2 = None
  /\ String.eqb (fst r1) (fst r2) = false
  /\ List.length (mock.invoices (node w2)) = 2%nat.
Proof. vm_compute. repeat split. Qed.

(** ** No local state *)


(** ** [assignDefaultValues] *)

(** C9. [assignDefaultValues] replaces the empty fields, and only those, by
    the defaults ["localhost:10009"], ["tls.cert"] and ["invoice.macaroon"];
    applied to its own result it changes nothing. *)
Theorem assignDefaultValues_fills_empty_fields (o : LNDoptions) :
  Address (assignDefaultValues o)
    = (if String.eqb (Address o) "" then "localhost:10009" else Address o)
  /\ CertFile (assignDefaultValues o)
    = (if String.eqb (CertFile o) "" then "tls.cert" else CertFile o)
  /\ MacaroonFile (assignDefaultValues o)
    = (if String.eqb (MacaroonFile o) "" then "invoice.macaroon" else MacaroonFile o)
  /\ assignDefaultValues (assignDefaultValues o) = assignDefaultValues o.
Proof.
  destruct o as [a c m]. unfold assignDefaultValues.
  cbn [Address CertFile MacaroonFile DefaultLNDoptions].
  destruct a as [|a0 a'], c as [|c0 c'], m as [|m0 m']; cbn; repeat split.
Qed.

(** ** The decision procedure *)

(** C6. A request whose proof decodes and whose replay key the storage
    reports as used is rejected as already used, and the verification
    capability is not contacted: its state is untouched and the only
    capability call made for the request is [WasUsed]. *)
Theorem decide_used_proof_skips_verification {V S : Type}
    (vc : wall.Verification V) (sc : wall.Storage S)
    (cfg : wall.ChargeConfiguration) (proof : string) (decoded : list byte)
    (sys : wall.System V S) (s1 : S) :
  base64.DecodeString proof = (decoded, None) ->
  wall.WasUsed sc (sha256.Sum256 decoded) (wall.storage sys) = (inl true, s1) ->
  wall.decide vc sc cfg (Some proof) sys
    = (wall.Rejected wall.AlreadyUsed,
       wall.mkSystem (wall.verification sys) s1
         (wall.calls sys ++ [wall.CallWasUsed (sha256.Sum256 decoded)]))
  /\ filter wall.isVerificationCall (wall.calls (snd (wall.decide vc sc cfg (Some proof) sys)))
     = filter wall.isVerificationCall (wall.calls sys).
Proof.
  intros Hdec Hused.
  assert (E : wall.decide vc sc cfg (Some proof) sys
              = (wall.Rejected wall.AlreadyUsed,
                 wall.mkSystem (wall.verification sys) s1
                   (wall.calls sys ++ [wall.CallWasUsed (sha256.Sum256 decoded)]))).
  { unfold wall.decide. rewrite Hdec, Hused. reflexivity. }
  rewrite E. split; [reflexivity |].
  cbn [snd wall.calls]. rewrite filter_app. cbn [filter wall.isVerificationCall].
  apply app_nil_r.
Qed.

(** The example of the specification on the test doubles: a settled proof
    that was never presented is authorized after [WasUsed], [IsSettled] and
    [MarkUsed], in that order; presented again it is rejected after [WasUsed]
    alone. *)
Example decide_first_and_second_presentation :
  let key := sha256.Sum256 (mock.preimageOf 0) in
  let cfg := wall.mkConfig 100 "api-call" in
  let '(o1, sys1) := wall.decide wall.countingVerification wall.listStorage cfg
                       (Some mock.proof0) (wall.mkSystem 0%nat [] []) in
  let '(o2, sys2) := wall.decide wall.countingVerification wall.listStorage cfg
                       (Some mock.proof0) sys1 in
  o1 = wall.Authorized
  /\ wall.calls sys1
     = [wall.CallWasUsed key; wall.CallIsSettled mock.proof0; wall.CallMarkUsed key]
  /\ o2 = wall.Rejected wall.AlreadyUsed
  /\ wall.calls sys2 = wall.calls sys1 ++ [wall.CallWasUsed key]
  /\ wall.verification sys2 = wall.verification sys1.
Proof. vm_compute. repeat split. Qed.

Lemma decide_used_proof_skips_verification_witness :
  wall.decide wall.countingVerification wall.listStorage
    (wall.mkConfig 100 "api-call") (Some mock.proof0)
    (wall.mkSystem 0%nat [sha256.Sum256 (mock.preimageOf 0)] [])
  = (wall.Rejected wall.AlreadyUsed,
     wall.mkSystem 0%nat [sha256.Sum256 (mock.preimageOf 0)]
       ([] ++ [wall.CallWasUsed (sha256.Sum256 (mock.preimageOf 0))])).
Proof.
  refine (proj1 (decide_used_proof_skips_verification wall.countingVerification
                   wall.listStorage (wall.mkConfig 100 "api-call") mock.proof0
                   (mock.preimageOf 0)
                   (wall.mkSystem 0%nat [sha256.Sum256 (mock.preimageOf 0)] [])
                   [sha256.Sum256 (mock.preimageOf 0)] _ _)).
  - vm_compute. reflexivity.
  - vm_compute. reflexivity.
Defined.

(** * Further properties of package [ln] *)

(** ** The results of [CheckInvoice] and [GenerateInvoice] *)

(** X1. [CheckInvoice] answers [true] exactly when the preimage decodes and
    the node returns, without error, an invoice that is settled; and an answer
    [true] never comes with an error. *)
Theorem CheckInvoice_true_iff_settled {N : Type} (c : LNDclient N)
    (preimage : string) (w : World N) :
  (fst (fst (CheckInvoice c preimage w)) = true <->
   exists decoded invoice,
     base64.DecodeString preimage = (decoded, None)
     /\ fst (lnrpc.LookupInvoice (lndClient c) (ctx c) (paymentHashOf decoded) (node w))
        = (Some invoice, None)
     /\ lnrpc.Invoice.Settled invoice = true)
  /\ (fst (fst (CheckInvoice c preimage w)) = true ->
      snd (fst (CheckInvoice c preimage w)) = None).
Proof.
  destruct (base64.DecodeString preimage) as [decoded [e|]] eqn:Hdec.
  - rewrite (CheckInvoice_undecoded c preimage decoded e w Hdec). cbn [fst snd].
    split; [split |]; try discriminate.
    intros (d & i & Hd & _). discriminate Hd.
  - rewrite (CheckInvoice_decoded c preimage decoded w Hdec). cbv zeta.
    destruct (lnrpc.LookupInvoice (lndClient c) (ctx c) (paymentHashOf decoded) (node w))
      as [[inv [s|]] n'] eqn:Hlook; cbn [fst snd].
    + split; [split |]; try discriminate.
      intros (d & i & Hd & Hl & _). injection Hd as <-.
      try rewrite Hlook in Hl. discriminate Hl.
    + split; [split |]; [| | reflexivity].
      * destruct inv as [i|]; cbn [lnrpc.GetSettled]; [| discriminate].
        intros Hs. exists decoded, i. repeat split; try assumption;
          try rewrite Hlook; reflexivity.
      * intros (d & i & Hd & Hl & Hs). injection Hd as <-.
        try rewrite Hlook in Hl. cbn [fst] in Hl. injection Hl as ->.
        exact Hs.
Qed.

Lemma CheckInvoice_true_iff_settled_witness :
  fst (fst (CheckInvoice mock.client mock.proof0
              (mkWorld (mock.settle (sha256.Sum256 (mock.preimageOf 0))
                          (node mock.charged)) []))) = true.
Proof.
  apply (proj2 (proj1 (CheckInvoice_true_iff_settled mock.client mock.proof0 _))).
  eexists. eexists. split; [| split].
  - vm_compute. reflexivity.
  - vm_compute. reflexivity.
  - reflexivity.
Defined.

(** X2. [GenerateInvoice] returns either a nil error, or the empty payment
    request together with the status that the node gave: a payment request
    never comes with an error, and the error is never of another kind. *)
Theorem GenerateInvoice_error_or_request {N : Type} (c : LNDclient N)
    (amount : Z) (memo : string) (w : World N) :
  snd (fst (GenerateInvoice c amount memo w)) = None
  \/ (fst (fst (GenerateInvoice c amount memo w)) = EmptyString
      /\ exists s,
           snd (fst (lnrpc.AddInvoice (lndClient c) (ctx c)
                       (requestedInvoice amount memo) (node w))) = Some s
           /\ snd (fst (GenerateInvoice c amount memo w)) = Some (StatusError s)).
Proof.
  rewrite GenerateInvoice_run. cbv zeta.
  destruct (lnrpc.AddInvoice (lndClient c) (ctx c) _ (node w)) as [[res [s|]] n'];
    cbn [fst snd].
  - right. split; [reflexivity |]. exists s. split; reflexivity.
  - left. reflexivity.
Qed.

(** X3. Checking a proof never creates a charge and creating a charge never
    looks one up: [CheckInvoice] sends no [AddInvoice] and at most one request
    in all, [GenerateInvoice] sends no [LookupInvoice] and exactly one
    request. *)
Theorem remote_calls_of_each_method {N : Type} (c : LNDclient N) (amount : Z)
    (memo preimage : string) (w : World N) :
  addedInvoices (trace (snd (CheckInvoice c preimage w))) = addedInvoices (trace w)
  /\ (List.length (remoteCalls (trace (snd (CheckInvoice c preimage w))))
      <= S (List.length (remoteCalls (trace w))))%nat
  /\ lookedUpHashes (trace (snd (GenerateInvoice c amount memo w)))
     = lookedUpHashes (trace w)
  /\ List.length (remoteCalls (trace (snd (GenerateInvoice c amount memo w))))
     = S (List.length (remoteCalls (trace w))).
Proof.
  rewrite GenerateInvoice_run. cbv zeta. cbn [snd trace].
  rewrite lookedUpHashes_app, remoteCalls_app, length_app.
  cbn [lookedUpHashes flat_map remoteCalls filter isRemoteCall app List.length].
  rewrite app_nil_r, Nat.add_1_r.
  destruct (base64.DecodeString preimage) as [decoded [e|]] eqn:Hdec.
  - rewrite (CheckInvoice_undecoded c preimage decoded e w Hdec). cbn [snd].
    repeat split. apply Nat.le_succ_diag_r.
  - rewrite (CheckInvoice_decoded c preimage decoded w Hdec). cbv zeta.
    cbn [snd trace].
    rewrite addedInvoices_app, remoteCalls_app, length_app.
    cbn [addedInvoices flat_map remoteCalls filter isRemoteCall app List.length].
    rewrite app_nil_r, Nat.add_1_r. repeat split. apply Nat.le_refl.
Qed.

(** ** [assignDefaultValues], continued *)

Lemma assignDefaultValues_facts (o : LNDoptions) :
  CertFile (assignDefaultValues o)
    = (if String.eqb (CertFile o) "" then "tls.cert" else CertFile o)
  /\ assignDefaultValues (assignDefaultValues o) = assignDefaultValues o
  /\ Address (assignDefaultValues o) <> EmptyString
  /\ CertFile (assignDefaultValues o) <> EmptyString
  /\ MacaroonFile (assignDefaultValues o) <> EmptyString.
Proof.
  destruct o as [a c m]. unfold assignDefaultValues.
  cbn [Address CertFile MacaroonFile DefaultLNDoptions].
  destruct a as [|a0 a'], c as [|c0 c'], m as [|m0 m']; cbn;
    repeat split; discriminate.
Qed.


(** X4. After [assignDefaultValues] no field is empty, and the options it
    leaves as they are, are exactly those without an empty field. *)
Theorem assignDefaultValues_no_empty_field (o : LNDoptions) :
  Address (assignDefaultValues o) <> EmptyString
  /\ CertFile (assignDefaultValues o) <> EmptyString
  /\ MacaroonFile (assignDefaultValues o) <> EmptyString
  /\ (assignDefaultValues o = o <->
      Address o <> EmptyString /\ CertFile o <> EmptyString
      /\ MacaroonFile o <> EmptyString).
Proof.
  destruct o as [a c m]. unfold assignDefaultValues.
  cbn [Address CertFile MacaroonFile DefaultLNDoptions].
  destruct a as [|a0 a'], c as [|c0 c'], m as [|m0 m']; cbn;
    repeat split; try discriminate; try tauto;
    try (intros H; discriminate H); intros (H1 & H2 & H3); congruence.
Qed.

(** ** Hexadecimal text *)

Lemma hex_EncodeToString_length (src : list byte) :
  String.length (hex.EncodeToString src) = (2 * List.length src)%nat.
Proof.
  induction src as [|v rest IH]; [reflexivity |].
  cbn [hex.EncodeToString String.length List.length]. rewrite IH. lia.
Qed.

Lemma hex_digits_of_byte (v : byte) :
  isLowerHexDigit (hex.digit (Z.shiftr (Z_of_byte v) 4)) = true
  /\ isLowerHexDigit (hex.digit (Z.land (Z_of_byte v) 15)) = true
  /\ byte_of_Z (16 * fromHexChar (hex.digit (Z.shiftr (Z_of_byte v) 4))
                + fromHexChar (hex.digit (Z.land (Z_of_byte v) 15))) = v.
Proof. destruct v; vm_compute; repeat split. Qed.

Lemma hex_EncodeToString_digits (src : list byte) :
  forallb isLowerHexDigit (list_ascii_of_string (hex.EncodeToString src)) = true.
Proof.
  induction src as [|v rest IH]; [reflexivity |].
  cbn [hex.EncodeToString list_ascii_of_string forallb].
  destruct (hex_digits_of_byte v) as (H1 & H2 & _).
  rewrite H1, H2, IH. reflexivity.
Qed.

Lemma hex_EncodeToString_inj (a b : list byte) :
  hex.EncodeToString a = hex.EncodeToString b -> a = b.
Proof.
  revert b. induction a as [|x a IH]; intros [|y b] H;
    cbn [hex.EncodeToString] in H; try discriminate; [reflexivity |].
  injection H as Hhi Hlo Hrest.
  f_equal; [| apply IH; exact Hrest].
  destruct (hex_digits_of_byte x) as (_ & _ & Hx).
  destruct (hex_digits_of_byte y) as (_ & _ & Hy).
  rewrite <- Hx, <- Hy, Hhi, Hlo. reflexivity.
Qed.

(** X5. The payment hash that [CheckInvoice] sends names the hash twice, and
    the two agree: [RHash] is 32 bytes, and [RHashStr] is 64 lower-case
    hexadecimal digits that are the hex encoding of [RHash] and of no other
    byte string. *)
Theorem CheckInvoice_sends_wellformed_hash {N : Type} (c : LNDclient N)
    (preimage : string) (decoded : list byte) (w : World N) :
  base64.DecodeString preimage = (decoded, None) ->
  exists ph,
    trace (snd (CheckInvoice c preimage w))
    = trace w ++ [EvLog (checkLogLine decoded); EvLookupInvoice (ctx c) ph]
    /\ List.length (lnrpc.PaymentHash.RHash ph) = 32%nat
    /\ String.length (lnrpc.PaymentHash.RHashStr ph) = 64%nat
    /\ forallb isLowerHexDigit
         (list_ascii_of_string (lnrpc.PaymentHash.RHashStr ph)) = true
    /\ (forall b, hex.EncodeToString b = lnrpc.PaymentHash.RHashStr ph <->
                  b = lnrpc.PaymentHash.RHash ph).
Proof.
  intros Hdec. exists (paymentHashOf decoded).
  rewrite (CheckInvoice_decoded c preimage decoded w Hdec). cbv zeta.
  unfold paymentHashOf.
  cbn [snd trace lnrpc.PaymentHash.RHash lnrpc.PaymentHash.RHashStr].
  split; [reflexivity |].
  split; [apply Sum256_length |].
  split; [rewrite hex_EncodeToString_length, Sum256_length; reflexivity |].
  split; [apply hex_EncodeToString_digits |].
  intros b. split; [apply hex_EncodeToString_inj | intros ->; reflexivity].
Qed.

Lemma CheckInvoice_sends_wellformed_hash_witness :
  exists ph,
    trace (snd (CheckInvoice mock.client mock.proof0 mock.charged))
    = trace mock.charged
        ++ [EvLog (checkLogLine (mock.preimageOf 0));
            EvLookupInvoice (ctx mock.client) ph]
    /\ List.length (lnrpc.PaymentHash.RHash ph) = 32%nat
    /\ String.length (lnrpc.PaymentHash.RHashStr ph) = 64%nat
    /\ forallb isLowerHexDigit
         (list_ascii_of_string (lnrpc.PaymentHash.RHashStr ph)) = true
    /\ (forall b, hex.EncodeToString b = lnrpc.PaymentHash.RHashStr ph <->
                  b = lnrpc.PaymentHash.RHash ph).
Proof.
  apply (CheckInvoice_sends_wellformed_hash mock.client mock.proof0
           (mock.preimageOf 0) mock.charged).
  vm_compute. reflexivity.
Defined.

(** ** [NewLNDclient] *)

Lemma Sprintf_X_length (s : string) :
  String.length (fmt.Sprintf_X s) = (2 * String.length s)%nat.
Proof.
  induction s as [|c rest IH]; [reflexivity |].
  cbn [fmt.Sprintf_X String.length]. cbv zeta. cbn [String.length].
  rewrite IH. lia.
Qed.

Lemma Sprintf_X_of_char (c : ascii) :
  let n := Z.of_N (N_of_ascii c) in
  isUpperHexDigit (fmt.digitX (Z.shiftr n 4)) = true
  /\ isUpperHexDigit (fmt.digitX (Z.land n 15)) = true
  /\ ascii_of_N (Z.to_N (16 * fromHexChar (fmt.digitX (Z.shiftr n 4))
                          + fromHexChar (fmt.digitX (Z.land n 15)))) = c.
Proof.
  destruct c as [[] [] [] [] [] [] [] []]; vm_compute; repeat split.
Qed.

Lemma Sprintf_X_digits (s : string) :
  forallb isUpperHexDigit (list_ascii_of_string (fmt.Sprintf_X s)) = true.
Proof.
  induction s as [|c rest IH]; [reflexivity |].
  cbn [fmt.Sprintf_X]. cbv zeta. cbn [list_ascii_of_string forallb].
  destruct (Sprintf_X_of_char c) as (H1 & H2 & _).
  rewrite H1, H2, IH. reflexivity.
Qed.

Lemma Sprintf_X_inj (a b : string) :
  fmt.Sprintf_X a = fmt.Sprintf_X b -> a = b.
Proof.
  revert b. induction a as [|x a IH]; intros [|y b] H;
    cbn [fmt.Sprintf_X] in H; cbv zeta in H; try discriminate; [reflexivity |].
  injection H as Hhi Hlo Hrest.
  f_equal; [| apply IH; exact Hrest].
  destruct (Sprintf_X_of_char x) as (_ & _ & Hx).
  destruct (Sprintf_X_of_char y) as (_ & _ & Hy).
  rewrite <- Hx, <- Hy, Hhi, Hlo. reflexivity.
Qed.

Lemma string_of_bytes_inj (a b : list byte) :
  string_of_bytes a = string_of_bytes b -> a = b.
Proof.
  intros H. unfold string_of_bytes in H.
  rewrite <- (list_byte_of_string_of_list_byte a),
          <- (list_byte_of_string_of_list_byte b), H. reflexivity.
Qed.

Lemma string_of_bytes_length (a : list byte) :
  String.length (string_of_bytes a) = List.length a.
Proof.
  unfold string_of_bytes. induction a as [|x a IH]; [reflexivity |].
  simpl. f_equal. exact IH.
Qed.

(** What the constructor returns, by the outcome of the three host steps. *)
Lemma NewLNDclient_run {N C E : Type} (h : Host N C E) (o : LNDoptions) :
  let o' := assignDefaultValues o in
  let cert := NewClientTLSFromFile h (CertFile o') "" in
  let dial := Dial h (Address o') (fst cert) in
  let file := ReadFile h (MacaroonFile o') in
  NewLNDclient h o =
  match snd cert with
  | Some e => ((None, Some e), [EvLoadCert (CertFile o') ""])
  | None =>
      match snd dial with
      | Some e => ((None, Some e), [EvLoadCert (CertFile o') ""; EvDial (Address o')])
      | None =>
          (match snd file with
           | Some e => (None, Some e)
           | None =>
               (Some {| lndClient := NewLightningClient h (fst dial);
                        ctx := context.mk
                                 [("macaroon",
                                   fmt.Sprintf_X (string_of_bytes (fst file)))];
                        conn := fst dial |}, None)
           end,
           [EvLoadCert (CertFile o') ""; EvDial (Address o');
            EvReadFile (MacaroonFile o')])
      end
  end.
Proof.
  cbv zeta. unfold NewLNDclient.
  destruct (NewClientTLSFromFile h _ _) as [creds [e|]]; cbn [fst snd]; [reflexivity |].
  destruct (Dial h _ creds) as [cn [e|]]; cbn [fst snd]; [reflexivity |].
  destruct (ReadFile h _) as [mac [e|]]; cbn [fst snd]; reflexivity.
Qed.

(** X6. The constructor hands out a client exactly when it reports no error,
    and that is exactly when the certificate was loaded, the node was dialed
    and the macaroon was read, all three without error. *)
Theorem NewLNDclient_client_iff_no_error {N C E : Type} (h : Host N C E)
    (o : LNDoptions) :
  let o' := assignDefaultValues o in
  let cert := NewClientTLSFromFile h (CertFile o') "" in
  let dial := Dial h (Address o') (fst cert) in
  let file := ReadFile h (MacaroonFile o') in
  (fst (fst (NewLNDclient h o)) = None <-> snd (fst (NewLNDclient h o)) <> None)
  /\ (snd (fst (NewLNDclient h o)) = None <->
      snd cert = None /\ snd dial = None /\ snd file = None).
Proof.
  intros o' cert dial file.
  rewrite (NewLNDclient_run h o). cbv zeta. fold o'. fold cert. fold dial. fold file.
  destruct (snd cert) as [e1|]; cbn [fst snd].
  { split; split; try discriminate; try reflexivity.
    intros (H & _). discriminate H. }
  destruct (snd dial) as [e2|]; cbn [fst snd].
  { split; split; try discriminate; try reflexivity.
    intros (_ & H & _). discriminate H. }
  destruct (snd file) as [e3|]; cbn [fst snd].
  { split; split; try discriminate; try reflexivity.
    intros (_ & _ & H). discriminate H. }
  split; split; try discriminate; try congruence.
  intros _. repeat split.
Qed.

(** X7. When the three steps succeed, the client keeps the dialed connection,
    talks through the stub made for that connection, and its context carries
    one metadata pair: the key ["macaroon"] and the macaroon file in
    hexadecimal, two upper-case digits for each byte; two macaroon files that
    give the same value are the same file. *)
Theorem NewLNDclient_success {N C E : Type} (h : Host N C E) (o : LNDoptions)
    (creds : option C) (cn : option grpc.ClientConn) (macaroon : list byte) :
  let o' := assignDefaultValues o in
  NewClientTLSFromFile h (CertFile o') "" = (creds, None) ->
  Dial h (Address o') creds = (cn, None) ->
  ReadFile h (MacaroonFile o') = (macaroon, None) ->
  exists c value,
    fst (NewLNDclient h o) = (Some c, None)
    /\ conn c = cn
    /\ lndClient c = NewLightningClient h cn
    /\ context.outgoing (ctx c) = [("macaroon", value)]
    /\ String.length value = (2 * List.length macaroon)%nat
    /\ forallb isUpperHexDigit (list_ascii_of_string value) = true
    /\ (forall macaroon',
          fmt.Sprintf_X (string_of_bytes macaroon') = value <-> macaroon' = macaroon).
Proof.
  intros o' Hcert Hdial Hfile.
  rewrite (NewLNDclient_run h o). cbv zeta. fold o'.
  rewrite Hcert. cbn [fst snd]. rewrite Hdial. cbn [fst snd].
  rewrite Hfile. cbn [fst snd].
  eexists. eexists. split; [reflexivity |].
  cbn [conn lndClient ctx context.outgoing].
  repeat split.
  - rewrite Sprintf_X_length, string_of_bytes_length. reflexivity.
  - apply Sprintf_X_digits.
  - intros H. apply string_of_bytes_inj, Sprintf_X_inj. exact H.
  - intros ->. reflexivity.
Qed.

Lemma NewLNDclient_success_witness :
  exists c value,
    fst (NewLNDclient (mockhost.make mockhost.files true)
           (mkLNDoptions "" "" "")) = (Some c, None)
    /\ conn c = Some (grpc.mk "localhost:10009")
    /\ lndClient c = mock.stub
    /\ context.outgoing (ctx c) = [("macaroon", value)]
    /\ String.length value = (2 * List.length mockhost.macaroon)%nat
    /\ forallb isUpperHexDigit (list_ascii_of_string value) = true
    /\ (forall macaroon',
          fmt.Sprintf_X (string_of_bytes macaroon') = value
          <-> macaroon' = mockhost.macaroon).
Proof.
  apply (NewLNDclient_success (mockhost.make mockhost.files true)
           (mkLNDoptions "" "" "")
           (Some (bytes_of_string "-----BEGIN CERTIFICATE-----"))
           (Some (grpc.mk "localhost:10009")) mockhost.macaroon).
  - reflexivity.
  - reflexivity.
  - reflexivity.
Defined.

(** X8. The steps run in the order certificate, dial, macaroon, each only
    after the ones before it succeeded: the node is dialed only with loaded
    credentials, the macaroon is read only after the dial; and no step is ever
    given an empty file name or address. *)
Theorem NewLNDclient_steps_in_order {N C E : Type} (h : Host N C E)
    (o : LNDoptions) :
  let o' := assignDefaultValues o in
  let cert := NewClientTLSFromFile h (CertFile o') "" in
  let dial := Dial h (Address o') (fst cert) in
  (exists k, (1 <= k <= 3)%nat
     /\ snd (NewLNDclient h o)
        = firstn k [EvLoadCert (CertFile o') ""; EvDial (Address o');
                    EvReadFile (MacaroonFile o')])
  /\ (forall target, In (EvDial target) (snd (NewLNDclient h o)) -> snd cert = None)
  /\ (forall filename, In (EvReadFile filename) (snd (NewLNDclient h o)) ->
        snd cert = None /\ snd dial = None)
  /\ Forall (fun e => setupName e <> EmptyString) (snd (NewLNDclient h o)).
Proof.
  intros o' cert dial.
  destruct (assignDefaultValues_facts o) as (_ & _ & Ha & Hc & Hm).
  fold o' in Ha, Hc, Hm.
  rewrite (NewLNDclient_run h o). cbv zeta. fold o'. fold cert. fold dial.
  destruct (snd cert) as [e1|]; cbn [fst snd].
  { split; [exists 1%nat; split; [lia | reflexivity] |].
    split; [intros t [H | []]; discriminate H |].
    split; [intros f [H | []]; discriminate H |].
    repeat constructor; assumption. }
  destruct (snd dial) as [e2|]; cbn [fst snd].
  { split; [exists 2%nat; split; [lia | reflexivity] |].
    split; [reflexivity |].
    split; [intros f [H | [H | []]]; discriminate H |].
    repeat constructor; assumption. }
  split; [exists 3%nat; split; [lia | reflexivity] |].
  split; [reflexivity |].
  split; [intros; split; reflexivity |].
  repeat constructor; assumption.
Qed.

(** X9. An empty field of the options means its default: the constructor
    does with [o] what it does with [assignDefaultValues o], and the first
    thing it does is load the certificate, from ["tls.cert"] when no
    certificate file is named. *)
Theorem NewLNDclient_applies_defaults {N C E : Type} (h : Host N C E)
    (o : LNDoptions) :
  NewLNDclient h o = NewLNDclient h (assignDefaultValues o)
  /\ hd_error (snd (NewLNDclient h o))
     = Some (EvLoadCert (if String.eqb (CertFile o) "" then "tls.cert" else CertFile o) "").
Proof.
  destruct (assignDefaultValues_facts o) as (Hc & Hidem & _).
  split.
  - unfold NewLNDclient at 2. rewrite Hidem. reflexivity.
  - rewrite (NewLNDclient_run h o). cbv zeta. rewrite Hc.
    destruct (snd (NewClientTLSFromFile h _ _)); [reflexivity |].
    destruct (snd (Dial h _ _)); reflexivity.
Qed.

(** X10. When the macaroon cannot be read, the node has already been dialed:
    the constructor returns the read error and the zero client, so the
    connection it opened is not handed to the caller. *)
Theorem NewLNDclient_macaroon_failure_drops_connection {N C E : Type}
    (h : Host N C E) (o : LNDoptions) (creds : option C)
    (cn : option grpc.ClientConn) (partial : list byte) (e : E) :
  let o' := assignDefaultValues o in
  NewClientTLSFromFile h (CertFile o') "" = (creds, None) ->
  Dial h (Address o') creds = (cn, None) ->
  ReadFile h (MacaroonFile o') = (partial, Some e) ->
  fst (NewLNDclient h o) = (None, Some e)
  /\ In (EvDial (Address o')) (snd (NewLNDclient h o)).
Proof.
  intros o' Hcert Hdial Hfile.
  rewrite (NewLNDclient_run h o). cbv zeta. fold o'.
  rewrite Hcert. cbn [fst snd]. rewrite Hdial. cbn [fst snd].
  rewrite Hfile. cbn [fst snd].
  split; [reflexivity | right; left; reflexivity].
Qed.

Lemma NewLNDclient_macaroon_failure_drops_connection_witness :
  fst (NewLNDclient (mockhost.make mockhost.files true)
         (mkLNDoptions "lnd.example:10009" "" "admin.macaroon"))
  = (None, Some (mockhost.noSuchFile "admin.macaroon"))
  /\ In (EvDial "lnd.example:10009")
       (snd (NewLNDclient (mockhost.make mockhost.files true)
               (mkLNDoptions "lnd.example:10009" "" "admin.macaroon"))).
Proof.
  apply (NewLNDclient_macaroon_failure_drops_connection
           (mockhost.make mockhost.files true)
           (mkLNDoptions "lnd.example:10009" "" "admin.macaroon")
           (Some (bytes_of_string "-----BEGIN CERTIFICATE-----"))
           (Some (grpc.mk "lnd.example:10009")) []
           (mockhost.noSuchFile "admin.macaroon")).
  - reflexivity.
  - reflexivity.
  - reflexivity.
Defined.

Lemma callContexts_app (t u : list Event) :
  callContexts (t ++ u) = callContexts t ++ callContexts u.
Proof. apply flat_map_app. Qed.

(** X11. Every request that a constructed client sends carries the macaroon:
    [GenerateInvoice] and [CheckInvoice] call the node with the context that
    the constructor built, whose only metadata is the macaroon in
    hexadecimal. *)
Theorem constructed_client_sends_macaroon {N C E : Type} (h : Host N C E)
    (o : LNDoptions) (c : LNDclient N) (amount : Z) (memo preimage : string)
    (w : World N) :
  fst (NewLNDclient h o) = (Some c, None) ->
  let macaroon := fst (ReadFile h (MacaroonFile (assignDefaultValues o))) in
  let mctx := context.mk [("macaroon", fmt.Sprintf_X (string_of_bytes macaroon))] in
  callContexts (trace (snd (GenerateInvoice c amount memo w)))
  = callContexts (trace w) ++ [mctx]
  /\ callContexts (trace (snd (CheckInvoice c preimage w)))
     = callContexts (trace w)
         ++ match snd (base64.DecodeString preimage) with
            | None => [mctx]
            | Some _ => []
            end.
Proof.
  intros Hnew macaroon mctx.
  assert (Hctx : ctx c = mctx).
  { rewrite (NewLNDclient_run h o) in Hnew. cbv zeta in Hnew.
    destruct (snd (NewClientTLSFromFile h _ _)); [discriminate Hnew |].
    destruct (snd (Dial h _ _)); [discriminate Hnew |].
    cbn [fst] in Hnew.
    destruct (snd (ReadFile h _)); [discriminate Hnew |].
    injection Hnew as <-. reflexivity. }
  rewrite GenerateInvoice_run. cbv zeta. cbn [snd trace].
  rewrite callContexts_app. cbn [callContexts flat_map app]. rewrite Hctx.
  split; [reflexivity |].
  destruct (base64.DecodeString preimage) as [decoded [e|]] eqn:Hdec.
  - rewrite (CheckInvoice_undecoded c preimage decoded e w Hdec). cbn [snd].
    symmetry. apply app_nil_r.
  - rewrite (CheckInvoice_decoded c preimage decoded w Hdec). cbv zeta.
    cbn [snd trace]. rewrite callContexts_app.
    cbn [callContexts flat_map app]. rewrite Hctx. reflexivity.
Qed.

Lemma constructed_client_sends_macaroon_witness :
  callContexts (trace (snd (GenerateInvoice
                              {| lndClient := mock.stub;
                                 ctx := context.mk [("macaroon", "0201036C6E64")];
                                 conn := Some (grpc.mk "localhost:10009") |}
                              100 "api-call" mock.fresh)))
  = callContexts (trace mock.fresh) ++ [context.mk [("macaroon", "0201036C6E64")]].
Proof.
  refine (proj1 (constructed_client_sends_macaroon
                   (mockhost.make mockhost.files true) (mkLNDoptions "" "" "")
                   _ 100 "api-call" "" mock.fresh _)).
  reflexivity.
Defined.

(** ** The base64 decoder *)

Lemma lor_low (k y n : Z) :
  0 <= n -> 0 <= y < 2 ^ n -> Z.lor (k * 2 ^ n) y = k * 2 ^ n + y.
Proof.
  intros Hn Hy.
  assert (Hland : Z.land (k * 2 ^ n) y = 0).
  { apply Z.bits_inj'. intros m Hm. rewrite Z.land_spec, Z.bits_0.
    destruct (Z.lt_ge_cases m n) as [Hlt | Hge].
    - rewrite Z.mul_pow2_bits_low by lia. reflexivity.
    - rewrite <- (Z.mod_small y (2 ^ n)) by lia.
      rewrite Z.mod_pow2_bits_high by lia. apply andb_false_r. }
  rewrite <- Z.lxor_lor by exact Hland.
  symmetry. apply Z.add_nocarry_lxor. exact Hland.
Qed.

Lemma Z_of_byte_range (b : byte) : 0 <= Z_of_byte b < 256.
Proof. destruct b; vm_compute; split; congruence. Qed.

Lemma byte_of_Z_of_byte (b : byte) : byte_of_Z (Z_of_byte b) = b.
Proof. destruct b; reflexivity. Qed.

Lemma byte_of_Z_mod (z : Z) : byte_of_Z (z mod 256) = byte_of_Z z.
Proof. unfold byte_of_Z. rewrite Z.mod_mod by lia. reflexivity. Qed.

Lemma val4_sum (v0 v1 v2 v3 : Z) :
  0 <= v0 < 64 -> 0 <= v1 < 64 -> 0 <= v2 < 64 -> 0 <= v3 < 64 ->
  val4 v0 v1 v2 v3 = v0 * 2 ^ 18 + v1 * 2 ^ 12 + v2 * 2 ^ 6 + v3.
Proof.
  intros H0 H1 H2 H3. unfold val4.
  rewrite !Z.shiftl_mul_pow2 by lia.
  rewrite (lor_low v0 (v1 * 2 ^ 12) 18) by lia.
  replace (v0 * 2 ^ 18 + v1 * 2 ^ 12)
    with ((v0 * 2 ^ 6 + v1) * 2 ^ 12) by ring.
  rewrite (lor_low _ (v2 * 2 ^ 6) 12) by lia.
  replace ((v0 * 2 ^ 6 + v1) * 2 ^ 12 + v2 * 2 ^ 6)
    with ((v0 * 2 ^ 12 + v1 * 2 ^ 6 + v2) * 2 ^ 6) by ring.
  rewrite (lor_low _ v3 6) by lia.
  ring.
Qed.

Lemma byte_of_Z_eq (z : Z) (b : byte) : z mod 256 = Z_of_byte b -> byte_of_Z z = b.
Proof.
  intros H. rewrite <- byte_of_Z_mod, H. apply byte_of_Z_of_byte.
Qed.

Lemma land_63 (x : Z) : 0 <= x -> Z.land x 63 = x mod 64.
Proof.
  intros Hx. change 63 with (Z.ones 6). rewrite Z.land_ones by lia. reflexivity.
Qed.

Lemma sextet_mid (a b : Z) (n : Z) :
  0 <= a < 256 -> 0 <= b < 256 -> 0 < n < 8 ->
  Z.land (Z.lor (Z.shiftl a n) (Z.shiftr b (8 - n))) 63
  = (a * 2 ^ n + b / 2 ^ (8 - n)) mod 64.
Proof.
  intros Ha Hb Hn.
  rewrite Z.shiftl_mul_pow2, Z.shiftr_div_pow2 by lia.
  assert (Hq : 0 <= b / 2 ^ (8 - n) < 2 ^ n).
  { split; [apply Z.div_pos; lia |].
    apply Z.div_lt_upper_bound; [lia |].
    rewrite <- Z.pow_add_r by lia. replace (8 - n + n) with 8 by lia. lia. }
  rewrite lor_low by lia.
  apply land_63. nia.
Qed.

Lemma decodeMap_encodeChar (n : Z) :
  0 <= n < 64 -> base64.decodeMap (base64.encodeChar n) = Some n.
Proof.
  intros Hn.
  assert (H : forallb (fun k => match base64.decodeMap (base64.encodeChar (Z.of_nat k)) with
                                | Some m => m =? Z.of_nat k
                                | None => false
                                end) (seq 0 64) = true) by (vm_compute; reflexivity).
  rewrite forallb_forall in H.
  specialize (H (Z.to_nat n)).
  rewrite Z2Nat.id in H by lia.
  assert (Hin : In (Z.to_nat n) (seq 0 64)) by (apply in_seq; lia).
  specialize (H Hin).
  destruct (base64.decodeMap (base64.encodeChar n)) as [m|]; [| discriminate].
  apply Z.eqb_eq in H. congruence.
Qed.

Lemma quantum3 (a b c : byte) :
  let A := Z_of_byte a in let B := Z_of_byte b in let C := Z_of_byte c in
  base64.quantumBytes
    [Z.land C 63;
     Z.land (Z.lor (Z.shiftl B 2) (Z.shiftr C 6)) 63;
     Z.land (Z.lor (Z.shiftl A 4) (Z.shiftr B 4)) 63;
     Z.shiftr A 2] 4
  = [a; b; c].
Proof.
  intros A B C.
  pose proof (Z_of_byte_range a) as Ha. pose proof (Z_of_byte_range b) as Hb.
  pose proof (Z_of_byte_range c) as Hc. fold A in Ha. fold B in Hb. fold C in Hc.
  unfold base64.quantumBytes. cbn [rev app nth firstn Nat.sub].
  fold (val4 (Z.shiftr A 2) (Z.land (Z.lor (Z.shiftl A 4) (Z.shiftr B 4)) 63)
          (Z.land (Z.lor (Z.shiftl B 2) (Z.shiftr C 6)) 63) (Z.land C 63)).
  pose proof (sextet_mid A B 4 Ha Hb ltac:(lia)) as H1. change (8 - 4) with 4 in H1.
  pose proof (sextet_mid B C 2 Hb Hc ltac:(lia)) as H2. change (8 - 2) with 6 in H2.
  rewrite H1, H2, land_63 by lia. clear H1 H2.
  rewrite (Z.shiftr_div_pow2 A 2) by lia.
  rewrite val4_sum;
    [| split; [apply Z.div_pos; lia | apply Z.div_lt_upper_bound; lia]
     | apply Z.mod_pos_bound; lia | apply Z.mod_pos_bound; lia
     | apply Z.mod_pos_bound; lia].
  rewrite !Z.shiftr_div_pow2 by lia.
  f_equal; [| f_equal; [| f_equal]]; apply byte_of_Z_eq; fold A B C;
    change (2 ^ 2) with 4; change (2 ^ 4) with 16; change (2 ^ 6) with 64;
    change (2 ^ 8) with 256; change (2 ^ 12) with 4096;
    change (2 ^ 16) with 65536; change (2 ^ 18) with 262144;
    Z.div_mod_to_equations; lia.
Qed.

Lemma sextet_last (b : Z) (n : Z) :
  0 <= b < 256 -> 0 <= n ->
  Z.land (Z.shiftl b n) 63 = (b * 2 ^ n) mod 64.
Proof.
  intros Hb Hn. rewrite Z.shiftl_mul_pow2 by lia. apply land_63.
  apply Z.mul_nonneg_nonneg; [lia | apply Z.pow_nonneg; lia].
Qed.

Lemma quantum2 (a b : byte) :
  let A := Z_of_byte a in let B := Z_of_byte b in
  base64.quantumBytes
    [Z.land (Z.shiftl B 2) 63;
     Z.land (Z.lor (Z.shiftl A 4) (Z.shiftr B 4)) 63;
     Z.shiftr A 2] 3
  = [a; b].
Proof.
  intros A B.
  pose proof (Z_of_byte_range a) as Ha. pose proof (Z_of_byte_range b) as Hb.
  fold A in Ha. fold B in Hb.
  unfold base64.quantumBytes. cbn [rev app nth firstn Nat.sub].
  fold (val4 (Z.shiftr A 2) (Z.land (Z.lor (Z.shiftl A 4) (Z.shiftr B 4)) 63)
          (Z.land (Z.shiftl B 2) 63) 0).
  pose proof (sextet_mid A B 4 Ha Hb ltac:(lia)) as H1. change (8 - 4) with 4 in H1.
  rewrite H1, (sextet_last B 2) by lia. clear H1.
  rewrite (Z.shiftr_div_pow2 A 2) by lia.
  rewrite val4_sum;
    [| split; [apply Z.div_pos; lia | apply Z.div_lt_upper_bound; lia]
     | apply Z.mod_pos_bound; lia | apply Z.mod_pos_bound; lia | lia].
  rewrite !Z.shiftr_div_pow2 by lia.
  f_equal; [| f_equal]; apply byte_of_Z_eq; fold A B;
    change (2 ^ 2) with 4; change (2 ^ 4) with 16; change (2 ^ 6) with 64;
    change (2 ^ 8) with 256; change (2 ^ 12) with 4096;
    change (2 ^ 16) with 65536; change (2 ^ 18) with 262144;
    Z.div_mod_to_equations; lia.
Qed.

Lemma quantum1 (a : byte) :
  base64.quantumBytes
    [Z.land (Z.shiftl (Z_of_byte a) 4) 63; Z.shiftr (Z_of_byte a) 2] 2 = [a].
Proof. destruct a; reflexivity. Qed.

Lemma sextet_ranges (a b : byte) :
  let A := Z_of_byte a in let B := Z_of_byte b in
  0 <= Z.shiftr A 2 < 64
  /\ 0 <= Z.land (Z.lor (Z.shiftl A 4) (Z.shiftr B 4)) 63 < 64
  /\ 0 <= Z.land (Z.lor (Z.shiftl A 2) (Z.shiftr B 6)) 63 < 64
  /\ 0 <= Z.land A 63 < 64
  /\ 0 <= Z.land (Z.shiftl A 4) 63 < 64
  /\ 0 <= Z.land (Z.shiftl A 2) 63 < 64.
Proof.
  intros A B.
  pose proof (Z_of_byte_range a) as Ha. pose proof (Z_of_byte_range b) as Hb.
  fold A in Ha. fold B in Hb.
  pose proof (sextet_mid A B 4 Ha Hb ltac:(lia)) as H1. change (8 - 4) with 4 in H1.
  pose proof (sextet_mid A B 2 Ha Hb ltac:(lia)) as H2. change (8 - 2) with 6 in H2.
  rewrite H1, H2, land_63, !sextet_last, Z.shiftr_div_pow2 by lia.
  repeat split; try (apply Z.mod_pos_bound; lia).
  - apply Z.div_pos; lia.
  - apply Z.div_lt_upper_bound; lia.
Qed.

Lemma decode_quad (c0 c1 c2 c3 : ascii) (v0 v1 v2 v3 : Z) (rest : list ascii)
    (si total : Z) (out : list byte) :
  base64.decodeMap c0 = Some v0 -> base64.decodeMap c1 = Some v1 ->
  base64.decodeMap c2 = Some v2 -> base64.decodeMap c3 = Some v3 ->
  base64.decode (c0 :: c1 :: c2 :: c3 :: rest) si total [] out
  = base64.decode rest (si + 1 + 1 + 1 + 1) total []
      (out ++ base64.quantumBytes [v3; v2; v1; v0] 4).
Proof.
  intros H0 H1 H2 H3.
  cbn [base64.decode List.length]. rewrite H0.
  cbn [base64.decode List.length]. rewrite H1.
  cbn [base64.decode List.length]. rewrite H2.
  cbn [base64.decode List.length]. rewrite H3.
  reflexivity.
Qed.

Lemma decode_pad2 (c0 c1 : ascii) (v0 v1 : Z) (si total : Z) (out : list byte) :
  base64.decodeMap c0 = Some v0 -> base64.decodeMap c1 = Some v1 ->
  base64.decode [c0; c1; base64.padChar; base64.padChar] si total [] out
  = (out ++ base64.quantumBytes [v1; v0] 2, None).
Proof.
  intros H0 H1.
  cbn [base64.decode List.length]. rewrite H0.
  cbn [base64.decode List.length]. rewrite H1.
  reflexivity.
Qed.

Lemma decode_pad1 (c0 c1 c2 : ascii) (v0 v1 v2 : Z) (si total : Z) (out : list byte) :
  base64.decodeMap c0 = Some v0 -> base64.decodeMap c1 = Some v1 ->
  base64.decodeMap c2 = Some v2 ->
  base64.decode [c0; c1; c2; base64.padChar] si total [] out
  = (out ++ base64.quantumBytes [v2; v1; v0] 3, None).
Proof.
  intros H0 H1 H2.
  cbn [base64.decode List.length]. rewrite H0.
  cbn [base64.decode List.length]. rewrite H1.
  cbn [base64.decode List.length]. rewrite H2.
  reflexivity.
Qed.

Lemma decode_encode (n : nat) :
  forall (bs : list byte), (List.length bs <= n)%nat ->
  forall (si total : Z) (out : list byte),
    base64.decode (list_ascii_of_string (base64.encode (map Z_of_byte bs)))
      si total [] out
    = (out ++ bs, None).
Proof.
  induction n as [|n IH]; intros bs Hlen si total out.
  - destruct bs; [| cbn in Hlen; lia]. cbn. rewrite app_nil_r. reflexivity.
  - destruct bs as [|a [|b [|c rest]]].
    + cbn. rewrite app_nil_r. reflexivity.
    + destruct (sextet_ranges a a) as (R0 & _ & _ & _ & R4 & _).
      cbn [map base64.encode list_ascii_of_string].
      rewrite (decode_pad2 _ _ _ _ si total out
                 (decodeMap_encodeChar _ R0) (decodeMap_encodeChar _ R4)).
      rewrite quantum1. reflexivity.
    + destruct (sextet_ranges a b) as (R0 & R1 & _).
      destruct (sextet_ranges b b) as (_ & _ & _ & _ & _ & R5).
      cbn [map base64.encode list_ascii_of_string].
      rewrite (decode_pad1 _ _ _ _ _ _ si total out
                 (decodeMap_encodeChar _ R0) (decodeMap_encodeChar _ R1)
                 (decodeMap_encodeChar _ R5)).
      rewrite quantum2. reflexivity.
    + destruct (sextet_ranges a b) as (R0 & R1 & _).
      destruct (sextet_ranges b c) as (_ & _ & R2 & _).
      destruct (sextet_ranges c c) as (_ & _ & _ & R3 & _).
      cbn [map base64.encode list_ascii_of_string].
      rewrite (decode_quad _ _ _ _ _ _ _ _ _ si total out
                 (decodeMap_encodeChar _ R0) (decodeMap_encodeChar _ R1)
                 (decodeMap_encodeChar _ R2) (decodeMap_encodeChar _ R3)).
      rewrite quantum3.
      rewrite (IH rest); [| cbn in Hlen; lia].
      rewrite <- app_assoc. reflexivity.
Qed.

Lemma DecodeString_EncodeToString (bs : list byte) :
  base64.DecodeString (base64.EncodeToString bs) = (bs, None).
Proof.
  unfold base64.DecodeString, base64.EncodeToString.
  apply (decode_encode (List.length bs) bs (Nat.le_refl _)).
Qed.

Lemma alphabet_not_newline (c : ascii) (v : Z) :
  base64.decodeMap c = Some v -> base64.isNewline c = false.
Proof.
  destruct c as [[] [] [] [] [] [] [] []]; vm_compute; intros H;
    first [reflexivity | discriminate H].
Qed.

Lemma skipNewlines_strip (src : list ascii) (si : Z) :
  stripNewlines (fst (base64.skipNewlines src si)) = stripNewlines src
  /\ match fst (base64.skipNewlines src si) with
     | [] => True
     | c :: _ => base64.isNewline c = false
     end.
Proof.
  revert si. induction src as [|c rest IH]; intros si; cbn [base64.skipNewlines].
  - split; [reflexivity | exact I].
  - destruct (base64.isNewline c) eqn:Hc.
    + destruct (IH (si + 1)) as [H1 H2]. split; [| exact H2].
      rewrite H1. cbn [stripNewlines filter]. rewrite Hc. reflexivity.
    + cbn [fst]. split; [reflexivity | exact Hc].
Qed.

Lemma skipNewlines_stripped (src : list ascii) (si : Z) :
  fst (base64.skipNewlines (stripNewlines src) si) = stripNewlines src.
Proof.
  destruct (stripNewlines src) as [|c rest] eqn:E; [reflexivity |].
  assert (Hin : In c (stripNewlines src)) by (rewrite E; left; reflexivity).
  apply filter_In in Hin. destruct Hin as [_ Hc].
  cbn [base64.skipNewlines]. apply negb_true_iff in Hc. rewrite Hc. reflexivity.
Qed.

(** After the padding: what is left, newlines skipped, is empty on one side
    exactly when it is on the other. *)
Lemma tail_after_padding (rest : list ascii) (si si' : Z) :
  match fst (base64.skipNewlines rest si),
        fst (base64.skipNewlines (stripNewlines rest) si') with
  | [], [] => True
  | c :: r, c' :: r' => c = c' /\ stripNewlines r = r' /\ base64.isNewline c = false
  | _, _ => False
  end.
Proof.
  rewrite skipNewlines_stripped.
  destruct (skipNewlines_strip rest si) as [H1 H2].
  destruct (fst (base64.skipNewlines rest si)) as [|c r].
  - rewrite <- H1. exact I.
  - rewrite <- H1. cbn [stripNewlines filter]. rewrite H2. cbn [negb].
    repeat split; try exact H2.
Qed.

Lemma decode_strip (src : list ascii) :
  forall (si total si' total' : Z) (dbuf : list Z) (out : list byte),
    sameDecoding (base64.decode src si total dbuf out)
                 (base64.decode (stripNewlines src) si' total' dbuf out).
Proof.
  induction src as [|c rest IH]; intros si total si' total' dbuf out.
  - cbn [stripNewlines filter base64.decode].
    destruct (List.length dbuf); split; cbn [fst snd]; try reflexivity;
      split; discriminate.
  - cbn [stripNewlines filter].
    destruct (base64.decodeMap c) as [v|] eqn:Hmap.
    + rewrite (alphabet_not_newline c v Hmap). cbn [negb base64.decode].
      rewrite Hmap.
      destruct dbuf as [|x [|y [|z [|t u]]]]; cbn [List.length]; apply IH.
    + destruct (base64.isNewline c) eqn:Hnl; cbn [negb].
      * cbn [base64.decode]. rewrite Hmap, Hnl. apply IH.
      * cbn [base64.decode]. rewrite Hmap, Hnl.
        destruct (Ascii.eqb c base64.padChar) eqn:Hpad; cbn [negb].
        2:{ split; cbn [fst snd]; [reflexivity | split; discriminate]. }
        fold (stripNewlines rest).
        destruct dbuf as [|x [|y [|z u]]]; cbn [List.length].
        -- split; cbn [fst snd]; [reflexivity | split; discriminate].
        -- split; cbn [fst snd]; [reflexivity | split; discriminate].
        -- pose proof (tail_after_padding rest (si + 1) (si' + 1)) as T1.
           destruct (base64.skipNewlines rest (si + 1)) as [r1 s1].
           destruct (base64.skipNewlines (stripNewlines rest) (si' + 1)) as [r1' s1'].
           cbn [fst] in T1.
           destruct r1 as [|c2 r2], r1' as [|c2' r2']; try contradiction.
           { split; cbn [fst snd]; [reflexivity | split; discriminate]. }
           destruct T1 as (<- & <- & _).
           destruct (Ascii.eqb c2 base64.padChar); cbn [negb].
           2:{ split; cbn [fst snd]; [reflexivity | split; discriminate]. }
           pose proof (tail_after_padding r2 (s1 + 1) (s1' + 1)) as T2.
           destruct (base64.skipNewlines r2 (s1 + 1)) as [r3 s3].
           destruct (base64.skipNewlines (stripNewlines r2) (s1' + 1)) as [r3' s3'].
           cbn [fst] in T2.
           destruct r3, r3'; try contradiction;
             split; cbn [fst snd]; try reflexivity; split; try discriminate;
             reflexivity.
        -- pose proof (tail_after_padding rest (si + 1) (si' + 1)) as T1.
           destruct (base64.skipNewlines rest (si + 1)) as [r3 s3].
           destruct (base64.skipNewlines (stripNewlines rest) (si' + 1)) as [r3' s3'].
           cbn [fst] in T1.
           destruct r3, r3'; try contradiction;
             split; cbn [fst snd]; try reflexivity; split; try discriminate;
             reflexivity.
Qed.

Lemma DecodeString_ignores_newlines (s : string) :
  fst (base64.DecodeString s) = fst (base64.DecodeString (withoutNewlines s))
  /\ (snd (base64.DecodeString s) = None
      <-> snd (base64.DecodeString (withoutNewlines s)) = None).
Proof.
  unfold base64.DecodeString, withoutNewlines.
  rewrite list_ascii_of_string_of_list_ascii.
  apply decode_strip.
Qed.

Lemma newline_legal (c : ascii) : base64.isNewline c = true -> legalChar c = true.
Proof.
  intros H. unfold legalChar. destruct (base64.decodeMap c); [reflexivity |].
  rewrite H. reflexivity.
Qed.

Lemma skipNewlines_illegal (src : list ascii) (si : Z) :
  hasIllegalChar (fst (base64.skipNewlines src si)) = hasIllegalChar src.
Proof.
  revert si. induction src as [|c rest IH]; intros si; cbn [base64.skipNewlines];
    [reflexivity |].
  destruct (base64.isNewline c) eqn:Hc; [| reflexivity].
  rewrite IH. cbn [hasIllegalChar existsb].
  rewrite (newline_legal c Hc). reflexivity.
Qed.

Lemma decode_illegal (src : list ascii) :
  forall (si total : Z) (dbuf : list Z) (out : list byte),
    hasIllegalChar src = true ->
    snd (base64.decode src si total dbuf out) <> None.
Proof.
  induction src as [|c rest IH]; intros si total dbuf out Hill; [discriminate Hill |].
  cbn [hasIllegalChar existsb] in Hill. fold (hasIllegalChar rest) in Hill.
  unfold legalChar in Hill.
  cbn [base64.decode].
  destruct (base64.decodeMap c) as [v|] eqn:Hmap.
  - cbn [negb orb] in Hill.
    destruct dbuf as [|x [|y [|z [|t u]]]]; cbn [List.length]; apply IH; exact Hill.
  - destruct (base64.isNewline c) eqn:Hnl; [apply IH; exact Hill |].
    destruct (Ascii.eqb c base64.padChar) eqn:Hpad; cbn [negb orb] in Hill |- *;
      [| discriminate].
    destruct dbuf as [|x [|y [|z u]]]; cbn [List.length]; try discriminate.
    + pose proof (skipNewlines_illegal rest (si + 1)) as S1. rewrite Hill in S1.
      destruct (base64.skipNewlines rest (si + 1)) as [r1 s1]. cbn [fst] in S1.
      destruct r1 as [|c2 r2]; [discriminate |].
      destruct (Ascii.eqb c2 base64.padChar) eqn:Hpad2; cbn [negb]; [| discriminate].
      cbn [hasIllegalChar existsb] in S1. fold (hasIllegalChar r2) in S1.
      assert (Hlegal : legalChar c2 = true).
      { unfold legalChar. destruct (base64.decodeMap c2); [reflexivity |].
        rewrite Hpad2. apply orb_true_r. }
      rewrite Hlegal in S1. cbn [negb orb] in S1.
      pose proof (skipNewlines_illegal r2 (s1 + 1)) as S2. rewrite S1 in S2.
      destruct (base64.skipNewlines r2 (s1 + 1)) as [r3 s3]. cbn [fst] in S2.
      destruct r3; [discriminate S2 | cbn [snd]; discriminate].
    + pose proof (skipNewlines_illegal rest (si + 1)) as S1. rewrite Hill in S1.
      destruct (base64.skipNewlines rest (si + 1)) as [r3 s3]. cbn [fst] in S1.
      destruct r3; [discriminate S1 | cbn [snd]; discriminate].
Qed.

Lemma DecodeString_rejects_illegal (s : string) :
  hasIllegalChar (list_ascii_of_string s) = true ->
  snd (base64.DecodeString s) <> None.
Proof. intros H. apply decode_illegal. exact H. Qed.

Lemma decode_unpadded (src : list ascii) :
  forall (si total : Z) (dbuf : list Z) (out : list byte),
    forallb inAlphabet src = true ->
    (List.length dbuf < 4)%nat ->
    (snd (base64.decode src si total dbuf out) = None
     <-> ((List.length dbuf + List.length src) mod 4 = 0)%nat).
Proof.
  induction src as [|c rest IH]; intros si total dbuf out Hall Hlen.
  - cbn [base64.decode List.length]. rewrite Nat.add_0_r.
    destruct dbuf as [|x [|y [|z [|t u]]]]; cbn [List.length] in *;
      try lia; cbn [snd]; split; intros H; try reflexivity; try discriminate H.
  - cbn [forallb] in Hall. apply andb_true_iff in Hall. destruct Hall as [Hc Hall].
    unfold inAlphabet in Hc. cbn [base64.decode].
    destruct (base64.decodeMap c) as [v|]; [| discriminate Hc].
    destruct dbuf as [|x [|y [|z [|t u]]]]; cbn [List.length] in *; try lia.
    + rewrite (IH (si + 1) total [v] out Hall) by (cbn; lia). cbn [List.length].
      replace (0 + S (List.length rest))%nat with (1 + List.length rest)%nat by lia.
      reflexivity.
    + rewrite (IH (si + 1) total [v; x] out Hall) by (cbn; lia). cbn [List.length].
      replace (1 + S (List.length rest))%nat with (2 + List.length rest)%nat by lia.
      reflexivity.
    + rewrite (IH (si + 1) total [v; x; y] out Hall) by (cbn; lia). cbn [List.length].
      replace (2 + S (List.length rest))%nat with (3 + List.length rest)%nat by lia.
      reflexivity.
    + rewrite (IH (si + 1) total [] _ Hall) by (cbn; lia). cbn [List.length].
      replace (3 + S (List.length rest))%nat with (List.length rest + 1 * 4)%nat by lia.
      rewrite Nat.Div0.mod_add. reflexivity.
Qed.

Lemma length_list_ascii (s : string) :
  List.length (list_ascii_of_string s) = String.length s.
Proof. induction s as [|c s IH]; [reflexivity |]. cbn. rewrite IH. reflexivity. Qed.

Lemma DecodeString_needs_padding (s : string) :
  forallb inAlphabet (list_ascii_of_string s) = true ->
  (snd (base64.DecodeString s) = None <-> (String.length s mod 4 = 0)%nat).
Proof.
  intros H. unfold base64.DecodeString.
  rewrite (decode_unpadded _ 0 _ [] [] H) by (cbn; lia).
  cbn [List.length Nat.add]. rewrite length_list_ascii. reflexivity.
Qed.

(** ** [CheckInvoice] and the text of the proof *)

(** X12. Every byte string can be presented as a proof: the standard base64
    text of a preimage decodes back to the preimage, so [CheckInvoice] given
    that text never stops at the decoder and looks up the digest of the
    preimage. *)
Theorem CheckInvoice_accepts_encoded_preimage {N : Type} (c : LNDclient N)
    (preimage : list byte) (w : World N) :
  base64.DecodeString (base64.EncodeToString preimage) = (preimage, None)
  /\ lookedUpHashes (trace (snd (CheckInvoice c (base64.EncodeToString preimage) w)))
     = lookedUpHashes (trace w) ++ [sha256.Sum256 preimage]
  /\ (forall e, snd (fst (CheckInvoice c (base64.EncodeToString preimage) w))
                <> Some (CorruptInputError e)).
Proof.
  pose proof (DecodeString_EncodeToString preimage) as Hdec.
  split; [exact Hdec |].
  rewrite (CheckInvoice_decoded c _ preimage w Hdec). cbv zeta.
  cbn [fst snd trace]. split.
  - rewrite lookedUpHashes_app. reflexivity.
  - intros e. destruct (snd (fst (lnrpc.LookupInvoice _ _ _ _))); discriminate.
Qed.

(** X13. Line feeds and carriage returns in the proof are skipped: the text
    with and without them decodes to the same bytes and fails or succeeds
    alike, so [CheckInvoice] gives the same answer and leaves the same world
    for both, and when the text decodes the two calls are the same in every
    respect.  Two different texts can therefore stand for one preimage. *)
Theorem CheckInvoice_ignores_newlines {N : Type} (c : LNDclient N)
    (preimage : string) (w : World N) :
  sameDecoding (base64.DecodeString preimage)
               (base64.DecodeString (withoutNewlines preimage))
  /\ fst (fst (CheckInvoice c preimage w))
     = fst (fst (CheckInvoice c (withoutNewlines preimage) w))
  /\ snd (CheckInvoice c preimage w) = snd (CheckInvoice c (withoutNewlines preimage) w)
  /\ (snd (base64.DecodeString preimage) = None ->
      CheckInvoice c preimage w = CheckInvoice c (withoutNewlines preimage) w).
Proof.
  pose proof (DecodeString_ignores_newlines preimage) as [Hfst Hsnd].
  split; [split; assumption |].
  destruct (base64.DecodeString preimage) as [d [e|]] eqn:H1;
    destruct (base64.DecodeString (withoutNewlines preimage)) as [d' [e'|]] eqn:H2;
    cbn [fst snd] in Hfst, Hsnd; subst d'.
  - rewrite (CheckInvoice_undecoded c _ d e w H1),
            (CheckInvoice_undecoded c _ d e' w H2).
    cbn [fst snd]. repeat split. discriminate.
  - destruct Hsnd as [_ Hsnd]. discriminate (Hsnd eq_refl).
  - destruct Hsnd as [Hsnd _]. discriminate (Hsnd eq_refl).
  - rewrite (CheckInvoice_decoded c _ d w H1), (CheckInvoice_decoded c _ d w H2).
    repeat split.
Qed.

Lemma CheckInvoice_ignores_newlines_witness :
  CheckInvoice mock.client
    (mock.proof0 ++ String "013"%char (String "010"%char EmptyString))%string
    mock.charged
  = CheckInvoice mock.client mock.proof0 mock.charged.
Proof.
  refine (proj2 (proj2 (proj2 (CheckInvoice_ignores_newlines mock.client
            (mock.proof0 ++ String "013"%char (String "010"%char EmptyString))%string
            mock.charged))) _).
  vm_compute. reflexivity.
Defined.

(** X14. A preimage with a character that is neither of the standard alphabet
    nor the padding character nor a newline is an error: [CheckInvoice]
    returns [false] with the decoder's error and leaves the world as it
    was. *)
Theorem CheckInvoice_rejects_illegal_character {N : Type} (c : LNDclient N)
    (preimage : string) (w : World N) :
  hasIllegalChar (list_ascii_of_string preimage) = true ->
  exists e, CheckInvoice c preimage w = ((false, Some (CorruptInputError e)), w).
Proof.
  intros Hill. pose proof (DecodeString_rejects_illegal preimage Hill) as Herr.
  destruct (base64.DecodeString preimage) as [d [e|]] eqn:Hdec;
    [| contradiction Herr; reflexivity].
  exists e. apply (CheckInvoice_undecoded c preimage d e w Hdec).
Qed.

Lemma CheckInvoice_rejects_illegal_character_witness :
  exists e,
    CheckInvoice mock.client "AAAAAAAAAAAAAAAAAAAAAAAAAAAAAAAAAAAAAAAAA-_=" mock.charged
    = ((false, Some (CorruptInputError e)), mock.charged).
Proof.
  apply (CheckInvoice_rejects_illegal_character mock.client
           "AAAAAAAAAAAAAAAAAAAAAAAAAAAAAAAAAAAAAAAAA-_=" mock.charged).
  reflexivity.
Defined.

(** X15. The padding is required: a preimage made of characters of the
    alphabet alone is a decoding error exactly when its length is not a
    multiple of four.  A 32-byte preimage in unpadded base64 (43 characters)
    is refused. *)
Theorem CheckInvoice_requires_padding {N : Type} (c : LNDclient N)
    (preimage : string) (w : World N) :
  forallb inAlphabet (list_ascii_of_string preimage) = true ->
  ((String.length preimage mod 4 <> 0)%nat <->
   exists e, CheckInvoice c preimage w = ((false, Some (CorruptInputError e)), w)).
Proof.
  intros Hall. pose proof (DecodeString_needs_padding preimage Hall) as Hpad.
  destruct (base64.DecodeString preimage) as [d [e|]] eqn:Hdec; cbn [snd] in Hpad.
  - rewrite (CheckInvoice_undecoded c preimage d e w Hdec). split.
    + intros _. exists e. reflexivity.
    + intros _ H0. apply Hpad in H0. discriminate H0.
  - rewrite (CheckInvoice_decoded c preimage d w Hdec). cbv zeta. split.
    + intros Hne. contradiction Hne. apply Hpad. reflexivity.
    + intros [e He].
      destruct (snd (fst (lnrpc.LookupInvoice _ _ _ _))); discriminate He.
Qed.

Lemma CheckInvoice_requires_padding_witness :
  exists e,
    CheckInvoice mock.client "AAAAAAAAAAAAAAAAAAAAAAAAAAAAAAAAAAAAAAAAAAA" mock.charged
    = ((false, Some (CorruptInputError e)), mock.charged).
Proof.
  refine (proj1 (CheckInvoice_requires_padding mock.client
                   "AAAAAAAAAAAAAAAAAAAAAAAAAAAAAAAAAAAAAAAAAAA" mock.charged _) _).
  - reflexivity.
  - vm_compute. discriminate.
Defined.
